(** * blumbaben: the global formatting-toolbar coordinator

    A shallow embedding of [src/utils/domUtils.ts] and
    [src/utils/globalToolbarManager.ts].

    - DOM elements, subscriber functions and change handlers are JavaScript
      objects compared by identity; they are modelled by identifiers, with the
      contents of the element objects kept in a heap ([dom]).
    - The class [GlobalToolbarManager] has four private fields; its methods
      are written in a state-and-exception monad over the [World], which holds
      the manager, the DOM heap, the host's timer queue and the trace of the
      calls the manager makes to the outside (console, subscribers, element
      methods, change handlers).
    - Functions supplied by the caller that return a value ([formatter],
      [getPosition]) are functions that may throw.  Functions supplied by the
      caller that are only called for their effect (subscribers, change
      handlers, DOM listeners) are recorded on the trace when called.
    - The methods are given twice.  The first part has them with callbacks
      that return, as the state setters of the hooks, the subscribers of this
      repository, do, and with an active element that has the focus, so that
      [focus()] runs no listener.  The module [InHost] has them with what the
      host and the callbacks may do in the middle of a call: a subscriber that
      throws ends [Set.forEach] and the method that was notifying, a change
      handler that throws ends [applyFormat], and [focus()] on an element
      that lost the focus runs the focus handler of the hook, which calls
      [showToolbar].  The first part is the instance of [InHost] with
      callbacks that return and no focus listener ([exec_returning]).
    - A timer is due after [timerDelay delay] milliseconds, the delay as
      Node's [setTimeout] takes it.
    - Numbers are integers: selection offsets, pixel coordinates and delays in
      whole milliseconds are [Z]; the clock of the host is a [nat]. *)

From stdpp Require Import base option list gmap strings.
From Stdlib Require Import ZArith Lia String Ascii.

Local Open Scope Z_scope.

(** ** JavaScript values used by the code *)

(** The completion of a call: a value, or an exception carrying a message. *)
Inductive completion (A : Type) : Type :=
| Normal (a : A)
| Throw (err : string).
Arguments Normal {A} a.
Arguments Throw {A} err.

(** [lo <= n <= hi] clamping, as [String.prototype.substring] does with [0]
    and the length of the string. *)
Definition clamp (lo hi n : Z) : Z := Z.min (Z.max n lo) hi.

(** [s.substring(start, end)]; [end_ = None] is the one-argument call.  Both
    offsets are clamped to [0, length], and swapped when out of order. *)
Definition js_substring (s : string) (start : Z) (end_ : option Z) : string :=
  let len := Z.of_nat (String.length s) in
  let finalStart := clamp 0 len start in
  let finalEnd := match end_ with None => len | Some e => clamp 0 len e end in
  let from := Z.min finalStart finalEnd in
  let to := Z.max finalStart finalEnd in
  String.substring (Z.to_nat from) (Z.to_nat (to - from)) s.

(** [a ?? b] *)
Definition nullish {A : Type} (a : option A) (b : A) : A :=
  match a with Some v => v | None => b end.

(** [a || b] on values that are either absent or a function (always truthy). *)
Definition js_or {A : Type} (a b : option A) : option A :=
  match a with Some v => Some v | None => b end.

(** [text.toUpperCase()] on the ASCII letters. *)
Definition upper_ascii (c : ascii) : ascii :=
  let n := nat_of_ascii c in
  if ((97 <=? n) && (n <=? 122))%nat then ascii_of_nat (n - 32) else c.

Fixpoint toUpperCase (s : string) : string :=
  match s with
  | EmptyString => EmptyString
  | String c s' => String (upper_ascii c) (toUpperCase s')
  end.

(** ** types.ts *)

Abbreviation Elem := nat (only parsing).
Abbreviation Callback := nat (only parsing).
Abbreviation Handler := nat (only parsing).
Abbreviation TimerId := positive (only parsing).

Definition FormatterFunction : Type := string → completion string.

Record ToolbarPosition : Type := { x : Z; y : Z }.

Record ToolbarState : Type := {
  activeElement : option Elem;
  isVisible : bool;
  position : option ToolbarPosition
}.

(** [Partial<ToolbarState>]: every field may be missing. *)
Record PartialToolbarState : Type := {
  new_activeElement : option (option Elem);
  new_isVisible : option bool;
  new_position : option (option ToolbarPosition)
}.

(** ** The DOM objects the code reads and writes *)

Record DOMRect : Type := { rect_left : Z; rect_bottom : Z }.

Record Props : Type := { onChange : option Handler }.

(** An input or textarea.  [value], [selectionStart] and [selectionEnd] may be
    null or undefined (the code guards each with [??]); [props] is the
    property read by [showToolbar]. *)
Record Element : Type := {
  value : option string;
  selectionStart : option Z;
  selectionEnd : option Z;
  props : option Props;
  boundingClientRect : DOMRect
}.

Definition blankElement : Element :=
  {| value := None; selectionStart := None; selectionEnd := None;
     props := None;
     boundingClientRect := {| rect_left := 0; rect_bottom := 0 |} |}.

#[global] Instance Element_inhabited : Inhabited Element := populate blankElement.

Definition PositionFn : Type := Element → completion ToolbarPosition.

(** ** The world: manager, DOM, timers, trace *)

(** A pending [setTimeout]; the only callback the code ever installs is
    [() => this.hideToolbar()]. *)
Record Timer : Type := { timerId : TimerId; due : nat }.

(** Calls made to the outside, in order. *)
Inductive Effect : Type :=
| ConsoleWarn (msg : string)
| Notify (callback : Callback) (snapshot : ToolbarState)
| ValueWritten (element : Elem) (newValue : string)
| DispatchEvent (element : Elem) (type : string) (bubbles : bool)
| ChangeCalled (handler : Handler) (currentTarget target : Elem)
| Focus (element : Elem)
| TimerFired (id : TimerId).

Record GlobalToolbarManager : Type := {
  activeElementOnChange : option Handler;
  hideTimeout : option TimerId;
  state : ToolbarState;
  subscribers : list Callback
}.

Record World : Type := {
  manager : GlobalToolbarManager;
  dom : gmap nat Element;
  timers : list Timer;
  clock : nat;
  nextTimer : TimerId;
  trace : list Effect
}.

Definition with_manager (m : GlobalToolbarManager) (w : World) : World :=
  {| manager := m; dom := dom w; timers := timers w; clock := clock w;
     nextTimer := nextTimer w; trace := trace w |}.
Definition with_dom (d : gmap nat Element) (w : World) : World :=
  {| manager := manager w; dom := d; timers := timers w; clock := clock w;
     nextTimer := nextTimer w; trace := trace w |}.
Definition with_timers (ts : list Timer) (w : World) : World :=
  {| manager := manager w; dom := dom w; timers := ts; clock := clock w;
     nextTimer := nextTimer w; trace := trace w |}.
Definition with_clock (c : nat) (w : World) : World :=
  {| manager := manager w; dom := dom w; timers := timers w; clock := c;
     nextTimer := nextTimer w; trace := trace w |}.
Definition with_nextTimer (n : TimerId) (w : World) : World :=
  {| manager := manager w; dom := dom w; timers := timers w; clock := clock w;
     nextTimer := n; trace := trace w |}.
Definition with_trace (t : list Effect) (w : World) : World :=
  {| manager := manager w; dom := dom w; timers := timers w; clock := clock w;
     nextTimer := nextTimer w; trace := t |}.

Definition with_activeElementOnChange (h : option Handler)
    (m : GlobalToolbarManager) : GlobalToolbarManager :=
  {| activeElementOnChange := h; hideTimeout := hideTimeout m;
     state := state m; subscribers := subscribers m |}.
Definition with_hideTimeout (t : option TimerId)
    (m : GlobalToolbarManager) : GlobalToolbarManager :=
  {| activeElementOnChange := activeElementOnChange m; hideTimeout := t;
     state := state m; subscribers := subscribers m |}.
Definition with_state (s : ToolbarState)
    (m : GlobalToolbarManager) : GlobalToolbarManager :=
  {| activeElementOnChange := activeElementOnChange m;
     hideTimeout := hideTimeout m; state := s; subscribers := subscribers m |}.
Definition with_subscribers (l : list Callback)
    (m : GlobalToolbarManager) : GlobalToolbarManager :=
  {| activeElementOnChange := activeElementOnChange m;
     hideTimeout := hideTimeout m; state := state m; subscribers := l |}.

(** ** The monad of the methods: state passing, with exceptions *)

Definition M (A : Type) : Type := World → World * completion A.

#[global] Instance M_ret : MRet M := λ A a w, (w, Normal a).
#[global] Instance M_bind : MBind M := λ A B f m w,
  match m w with
  | (w', Normal a) => f a w'
  | (w', Throw e) => (w', Throw e)
  end.

Definition gets {A : Type} (f : World → A) : M A := λ w, (w, Normal (f w)).
Definition modify (f : World → World) : M unit := λ w, (f w, Normal tt).
Definition liftC {A : Type} (c : completion A) : M A := λ w, (w, c).
Definition emit (e : Effect) : M unit :=
  modify (λ w, with_trace (trace w ++ [e]) w).
Definition this {A : Type} (f : GlobalToolbarManager → A) : M A :=
  gets (λ w, f (manager w)).
Definition this_set (f : GlobalToolbarManager → GlobalToolbarManager) : M unit :=
  modify (λ w, with_manager (f (manager w)) w).

Fixpoint forEach {A : Type} (l : list A) (f : A → M unit) : M unit :=
  match l with
  | [] => mret tt
  | a :: l' => f a;; forEach l' f
  end.

(** *** Host primitives *)

(** The delay a timer gets.  The handle of the class is a [NodeJS.Timeout]:
    Node's timers take the delay as it is when it lies in [1 .. 2^31 - 1] and
    replace every other delay by 1 ms.  (A browser converts the delay to 32
    bits and takes a negative one as 0; on [1 .. 2^31 - 1] it gives the same.)
    The statements about the manager in its host use no more than what the
    hosts share: a delay in that range is taken as it is, and with any other
    delay the timer has fired after 1 ms. *)
Definition timerDelay (delay : Z) : nat :=
  if (1 <=? delay) && (delay <=? 2147483647) then Z.to_nat delay else 1%nat.

(** [setTimeout(() => this.hideToolbar(), delay)]: a fresh handle, due after
    [timerDelay delay]. *)
Definition setTimeout (delay : Z) : M TimerId := λ w,
  let id := nextTimer w in
  (with_nextTimer (Pos.succ id)
     (with_timers (timers w ++ [{| timerId := id; due := (clock w + timerDelay delay)%nat |}]) w),
   Normal id).

Definition clearTimeout (id : TimerId) : M unit :=
  modify (λ w, with_timers (filter (λ t, timerId t ≠ id) (timers w)) w).

Definition readElement (element : Elem) : M Element :=
  gets (λ w, dom w !!! element).

Definition writeValue (element : Elem) (newValue : string) : M unit :=
  modify (λ w,
    let e := dom w !!! element in
    with_dom (<[element := {| value := Some newValue;
                              selectionStart := selectionStart e;
                              selectionEnd := selectionEnd e;
                              props := props e;
                              boundingClientRect := boundingClientRect e |}]> (dom w)) w);;
  emit (ValueWritten element newValue).

(** [new Set()], [add], [delete]: insertion order, no duplicates. *)
Definition Set_add (c : Callback) (s : list Callback) : list Callback :=
  if decide (c ∈ s) then s else s ++ [c].
Definition Set_delete (c : Callback) (s : list Callback) : list Callback :=
  filter (λ c', c' ≠ c) s.

(** ** domUtils.ts *)

Definition applyFormattingOnSelection (element : Element)
    (formatter : FormatterFunction) : completion string :=
  let selectionEnd := nullish (selectionEnd element) 0 in
  let selectionStart := nullish (selectionStart element) 0 in
  let value := nullish (value element) EmptyString in
  if selectionStart <? selectionEnd then
    let before := js_substring value 0 (Some selectionStart) in
    let selected := js_substring value selectionStart (Some selectionEnd) in
    let after := js_substring value selectionEnd None in
    match formatter selected with
    | Normal formatted => Normal (before +:+ formatted +:+ after)
    | Throw e => Throw e
    end
  else formatter value.

(** [updateElementValue], for a change handler that returns;
    [InHost.updateElementValue] is the one for a handler that may throw. *)
Definition updateElementValue (element : Elem) (newValue : string)
    (onChange : option Handler) : M unit :=
  writeValue element newValue;;
  emit (DispatchEvent element "input" true);;
  match onChange with
  | Some h => emit (ChangeCalled h element element)
  | None => mret tt
  end.

(** ** globalToolbarManager.ts *)

Definition defaultGetPosition : PositionFn := λ element,
  let rect := boundingClientRect element in
  Normal {| x := rect_left rect; y := rect_bottom rect + 5 |}.

Definition initialState : ToolbarState :=
  {| activeElement := None; isVisible := false; position := None |}.

Definition initialManager : GlobalToolbarManager :=
  {| activeElementOnChange := None; hideTimeout := None;
     state := initialState; subscribers := [] |}.

(** [{ ...state, ...newState }] *)
Definition spread (s : ToolbarState) (n : PartialToolbarState) : ToolbarState :=
  {| activeElement := nullish (new_activeElement n) (activeElement s);
     isVisible := nullish (new_isVisible n) (isVisible s);
     position := nullish (new_position n) (position s) |}.

Definition clearHideTimeout : M unit :=
  t ← this hideTimeout;
  match t with
  | Some id => clearTimeout id;; this_set (with_hideTimeout None)
  | None => mret tt
  end.

Definition getState : M ToolbarState := this state.

(** [callback(this.getState())], for a subscriber that returns;
    [InHost.callSubscriber] is the call of one that may throw. *)
Definition callSubscriber (callback : Callback) : M unit :=
  s ← getState;
  emit (Notify callback s).

Definition setState (newState : PartialToolbarState) : M unit :=
  this_set (λ m, with_state (spread (state m) newState) m);;
  subs ← this subscribers;
  forEach subs callSubscriber.

Definition cancelScheduledHide : M unit := clearHideTimeout.

Definition hideToolbar : M unit :=
  clearHideTimeout;;
  this_set (with_activeElementOnChange None);;
  setState {| new_activeElement := Some None;
              new_isVisible := Some false;
              new_position := Some None |}.

Definition scheduleHide (delay : Z) : M unit :=
  clearHideTimeout;;
  id ← setTimeout delay;
  this_set (with_hideTimeout (Some id)).

Definition showToolbar (element : Elem) (getPosition : option PositionFn) : M unit :=
  let getPosition := nullish getPosition defaultGetPosition in
  clearHideTimeout;;
  elementWithProps ← readElement element;
  this_set (with_activeElementOnChange
              (match props elementWithProps with
               | Some p => onChange p
               | None => None
               end));;
  pos ← liftC (getPosition elementWithProps);
  setState {| new_activeElement := Some (Some element);
              new_isVisible := Some true;
              new_position := Some (Some pos) |}.

(** The closure returned by [subscribe]; it captures [callback]. *)
Inductive Unsubscribe : Type := UnsubscribeOf (callback : Callback).

Definition subscribe (callback : Callback) : M Unsubscribe :=
  this_set (λ m, with_subscribers (Set_add callback (subscribers m)) m);;
  mret (UnsubscribeOf callback).

Definition callUnsubscribe (u : Unsubscribe) : M unit :=
  match u with
  | UnsubscribeOf callback =>
      this_set (λ m, with_subscribers (Set_delete callback (subscribers m)) m)
  end.

(** [applyFormat] when the active element has the focus, so that [focus()]
    runs no listener; [InHost.applyFormat] has the other case as well. *)
Definition applyFormat (formatter : FormatterFunction)
    (onChange : option Handler) : M unit :=
  s ← this state;
  match activeElement s with
  | None => emit (ConsoleWarn "No active element found for formatting")
  | Some activeElement =>
      element ← readElement activeElement;
      newValue ← liftC (applyFormattingOnSelection element formatter);
      stored ← this activeElementOnChange;
      let onChangeHandler := js_or onChange stored in
      updateElementValue activeElement newValue onChangeHandler;;
      emit (Focus activeElement)
  end.

(** ** The host's event loop *)

Definition isDue (now : nat) (t : Timer) : bool := (due t <=? now)%nat.

(** The host takes the timer off its queue and calls its callback,
    [() => this.hideToolbar()]. *)
Definition fireTimer (t : Timer) : M unit :=
  modify (λ w, with_timers (filter (λ t', timerId t' ≠ timerId t) (timers w)) w);;
  emit (TimerFired (timerId t));;
  hideToolbar.

(** Fire the timers that are due, oldest first.  A callback installs no timer,
    so the length of the queue bounds the number of rounds. *)
Fixpoint runDueTimers (fuel : nat) (w : World) : World :=
  match fuel with
  | O => w
  | S fuel' =>
      match List.find (isDue (clock w)) (timers w) with
      | Some t => runDueTimers fuel' (fireTimer t w).1
      | None => w
      end
  end.

Definition runTimers (w : World) : World :=
  runDueTimers (List.length (timers w)) w.

(** The current task ends and [ms] milliseconds pass. *)
Fixpoint elapse (ms : nat) (w : World) : World :=
  match ms with
  | O => runTimers w
  | S ms' => elapse ms' (with_clock (S (clock w)) (runTimers w))
  end.

(** ** Sequences of calls *)

Inductive Op : Type :=
| ShowToolbar (element : Elem) (getPosition : option PositionFn)
| HideToolbar
| ScheduleHide (delay : Z)
| CancelScheduledHide
| ApplyFormat (formatter : FormatterFunction) (onChange : option Handler)
| Subscribe (callback : Callback)
| CallUnsubscribe (u : Unsubscribe)
| GetState
| Elapse (ms : nat)
| UserEdit (element : Elem) (content : Element).

(** One call from an event handler; an exception ends the call and leaves the
    world as the call left it. *)
Definition exec (op : Op) (w : World) : World :=
  match op with
  | ShowToolbar element getPosition => (showToolbar element getPosition w).1
  | HideToolbar => (hideToolbar w).1
  | ScheduleHide delay => (scheduleHide delay w).1
  | CancelScheduledHide => (cancelScheduledHide w).1
  | ApplyFormat formatter onChange => (applyFormat formatter onChange w).1
  | Subscribe callback => (subscribe callback w).1
  | CallUnsubscribe u => (callUnsubscribe u w).1
  | GetState => (getState w).1
  | Elapse ms => elapse ms w
  | UserEdit element content => with_dom (<[element := content]> (dom w)) w
  end.

Definition run (ops : list Op) (w : World) : World := foldl (λ w op, exec op w) w ops.

(** The module is loaded: [new GlobalToolbarManager()]. *)
Definition initialWorld (d : gmap nat Element) : World :=
  {| manager := initialManager; dom := d; timers := []; clock := 0%nat;
     nextTimer := 1%positive; trace := [] |}.

Definition Reachable (w : World) : Prop :=
  ∃ d ops, w = run ops (initialWorld d).

(** The visibility invariant of a snapshot. *)
Definition visible_iff_present (s : ToolbarState) : Prop :=
  isVisible s = true ↔ activeElement s ≠ None ∧ position s ≠ None.

(** The snapshots handed to subscribers. *)
Definition published (t : list Effect) : list ToolbarState :=
  omap (λ e, match e with Notify _ s => Some s | _ => None end) t.

(** The calls made to one subscriber. *)
Definition callsTo (c : Callback) (t : list Effect) : list ToolbarState :=
  omap (λ e, match e with
             | Notify c' s => if decide (c' = c) then Some s else None
             | _ => None
             end) t.

(** The timers that fired. *)
Definition fired (t : list Effect) : list TimerId :=
  omap (λ e, match e with TimerFired id => Some id | _ => None end) t.

(** ** Notions used in the statements *)

(** The example formatter of domUtils.ts: [(text) => text.toUpperCase()]. *)
Definition uppercaseFormatter : FormatterFunction := λ text, Normal (toUpperCase text).

(** The half-open range [[a, b)] of a string, read off the indices: the
    characters whose index [i] has [a <= i < b], in order.  This is the
    reading of the specification; the code uses [js_substring]. *)
Fixpoint slice_from (i : Z) (s : string) (a b : Z) : string :=
  match s with
  | EmptyString => EmptyString
  | String c s' =>
      if (a <=? i) && (i <? b) then String c (slice_from (i + 1) s' a b)
      else slice_from (i + 1) s' a b
  end.

Definition slice (s : string) (a b : Z) : string := slice_from 0 s a b.

Definition strlen (s : string) : Z := Z.of_nat (String.length s).

(** One notification of every subscriber, in the order of the set. *)
Definition notifyAll (s : ToolbarState) (subs : list Callback) : list Effect :=
  map (λ c, Notify c s) subs.

(** What [clearHideTimeout] leaves on the host's queue. *)
Definition cleared (w : World) : list Timer :=
  match hideTimeout (manager w) with
  | Some id => filter (λ t, timerId t ≠ id) (timers w)
  | None => timers w
  end.

(** [elementWithProps.props?.onChange] *)
Definition capturedOnChange (e : Element) : option Handler :=
  match props e with Some p => onChange p | None => None end.

(** The two shapes of state the manager ever stores. *)
Definition hidden_or_shown (s : ToolbarState) : Prop :=
  s = initialState
  ∨ ∃ e p, s = {| activeElement := Some e; isVisible := true; position := Some p |}.

(** At most one timer is pending, and it is the one the manager holds. *)
Definition single_slot (w : World) : Prop :=
  match hideTimeout (manager w) with
  | None => timers w = []
  | Some id => ∃ d, timers w = [{| timerId := id; due := d |}]
  end.

(** [subscribe(c)] twice, then the closure returned by the first call. *)
Definition unsubscribe_one_of_two (c : Callback) (w : World) : World :=
  match subscribe c w with
  | (w1, Normal u1) =>
      match subscribe c w1 with
      | (w2, Normal _) => (callUnsubscribe u1 w2).1
      | (w2, Throw _) => w2
      end
  | (w1, Throw _) => w1
  end.

(** The reading of the specification in which the two registrations are
    independent: with one of them left, the next transition still calls [c]. *)
Definition registrations_independent (c : Callback) (w : World) : Prop :=
  let w3 := unsubscribe_one_of_two c w in
  callsTo c (trace (exec HideToolbar w3)) = callsTo c (trace w3) ++ [initialState].

(** The calls of a sequence that register [c]. *)
Definition subscribes (c : Callback) (op : Op) : Prop :=
  match op with Subscribe c' => c' = c | _ => False end.

(** What a call may append to the trace: a notification goes to a member of
    the set [subs] and carries one of the two shapes of state. *)
Definition notif_ok (subs : list Callback) (e : Effect) : Prop :=
  match e with
  | Notify c s => c ∈ subs ∧ hidden_or_shown s
  | _ => True
  end.

(** A step that leaves the subscriber set alone. *)
Definition quiet_step (w w' : World) : Prop :=
  subscribers (manager w') = subscribers (manager w)
  ∧ (hidden_or_shown (state (manager w)) → hidden_or_shown (state (manager w')))
  ∧ ∃ suffix, trace w' = trace w ++ suffix
              ∧ Forall (notif_ok (subscribers (manager w))) suffix.

(** An input or textarea with the given text and selection. *)
Definition textInput (v : string) (s e : option Z) : Element :=
  {| value := Some v; selectionStart := s; selectionEnd := e; props := None;
     boundingClientRect := {| rect_left := 0; rect_bottom := 0 |} |}.

(** A page with two inputs, the first with "hello" selected and a change
    handler in its props. *)
Definition inputA : Element :=
  {| value := Some "hello world"%string; selectionStart := Some 0;
     selectionEnd := Some 5; props := Some {| onChange := Some 7%nat |};
     boundingClientRect := {| rect_left := 10; rect_bottom := 20 |} |}.

Definition inputB : Element :=
  {| value := Some "second"%string; selectionStart := Some 3;
     selectionEnd := Some 3; props := None;
     boundingClientRect := {| rect_left := 10; rect_bottom := 60 |} |}.

Definition page : gmap nat Element := <[1%nat := inputA]> (<[2%nat := inputB]> ∅).

Ltac run_M :=
  cbv [mbind M_bind mret M_ret this this_set gets modify emit liftC getState
       callSubscriber clearTimeout setTimeout readElement writeValue].

(** ** types.ts: ToolbarConfig *)

(** Every option may be missing; [config = {}] is [emptyConfig]. *)
Record ToolbarConfig : Type := {
  getPosition : option PositionFn;
  hideDelay : option Z;
  preventCloseOnClick : option bool
}.

Definition emptyConfig : ToolbarConfig :=
  {| getPosition := None; hideDelay := None; preventCloseOnClick := None |}.

(** ** The events and element descriptions of the UI framework *)


(** [React.MouseEvent]: the code calls [preventDefault()], which the event
    remembers. *)
Record MouseEvent : Type := { defaultPrevented : bool }.

Definition preventDefault (e : MouseEvent) : MouseEvent :=
  {| defaultPrevented := true |}.

(** The values the code puts in a [style] object. *)
Inductive CSSValue : Type :=
| CssNumber (n : Z)
| CssKeyword (s : string).

(** ** hooks/useFormattingToolbar.ts

    The closures the hook returns, as functions of its [config].  The state
    cell of the hook ([useState] fed by [subscribe] in [useEffect]) belongs to
    the framework; [getToolbarProps] takes the snapshot it holds as an
    argument. *)
Module UseFormattingToolbar.

(** The hook's own copy of the default positioning function. *)
Definition defaultGetPosition : PositionFn := λ element,
  let rect := boundingClientRect element in
  Normal {| x := rect_left rect; y := rect_bottom rect + 5 |}.

(** [globalToolbarManager.showToolbar(element, getPosition)], with
    [getPosition = defaultGetPosition] when the config has none. *)
Definition showToolbar (config : ToolbarConfig) (element : Elem) : M unit :=
  let getPosition := nullish (getPosition config) defaultGetPosition in
  showToolbar element (Some getPosition).

Definition hideToolbar : M unit := hideToolbar.


(** [hideDelay = 500] when the config has none. *)
Definition handleBlur (config : ToolbarConfig) : M unit :=
  let hideDelay := nullish (hideDelay config) 500 in
  scheduleHide hideDelay.

(** The hook passes no [onChange]. *)
Definition applyFormat (formatter : FormatterFunction) : M unit :=
  applyFormat formatter None.



Record ToolbarProps : Type := {
  onMouseDown : option (MouseEvent → M MouseEvent);
  style : gmap string CSSValue
}.

(** [preventCloseOnClick = true] when the config has none; the handler is
    spread into the props only then. *)
Definition getToolbarProps (config : ToolbarConfig)
    (toolbarState : ToolbarState) : ToolbarProps :=
  let preventCloseOnClick := nullish (preventCloseOnClick config) true in
  {| style :=
       {[ "left"%string := CssNumber (match position toolbarState with
                                      | Some p => x p
                                      | None => 0
                                      end);
          "position"%string := CssKeyword "fixed";
          "top"%string := CssNumber (match position toolbarState with
                                     | Some p => y p
                                     | None => 0
                                     end);
          "zIndex"%string := CssNumber 1000 ]};
     onMouseDown :=
       if preventCloseOnClick then
         Some (λ e, let e := preventDefault e in
                    cancelScheduledHide;; mret e)
       else None |}.

End UseFormattingToolbar.

(** ** hooks/useFormattingToolbarState.ts *)
Module UseFormattingToolbarState.

Definition applyFormat (formatter : FormatterFunction) : M unit :=
  applyFormat formatter None.

End UseFormattingToolbarState.

(** ** formatting-toolbar.tsx

    The component as a function of its props and of the snapshot held by
    [useFormattingToolbarState]; [React.createElement] builds a description. *)
Module FormattingToolbarComponent.

Record FormattingToolbarProps (Node : Type) : Type := {
  as_ : option string;
  children : (FormatterFunction → M unit) → Node;
  className : option string;
  config : option ToolbarConfig;
  style : option (gmap string CSSValue)
}.
Arguments as_ {Node} _.
Arguments children {Node} _ _.
Arguments className {Node} _.
Arguments config {Node} _.
Arguments style {Node} _.

Record ReactElement (Node : Type) : Type := {
  elementType : string;
  elementClassName : string;
  elementOnMouseDown : option (MouseEvent → MouseEvent);
  elementStyle : gmap string CSSValue;
  elementChildren : Node
}.
Arguments elementType {Node} _.
Arguments elementClassName {Node} _.
Arguments elementOnMouseDown {Node} _.
Arguments elementStyle {Node} _.
Arguments elementChildren {Node} _.

(** [null] when [!toolbarState.isVisible || !toolbarState.position]; the
    caller's [style] is spread last. *)
Definition FormattingToolbar {Node : Type} (props : FormattingToolbarProps Node)
    (toolbarState : ToolbarState) : option (ReactElement Node) :=
  let Component := nullish (as_ props) "div"%string in
  let className := nullish (className props) EmptyString in
  let config := nullish (config props) emptyConfig in
  let style := nullish (style props) ∅ in
  let applyFormat := UseFormattingToolbarState.applyFormat in
  let preventCloseOnClick := nullish (preventCloseOnClick config) true in
  match isVisible toolbarState, position toolbarState with
  | true, Some pos =>
      let handleMouseDown :=
        if preventCloseOnClick then Some preventDefault else None in
      Some {| elementType := Component;
              elementClassName := className;
              elementOnMouseDown := handleMouseDown;
              elementStyle :=
                style ∪ {[ "left"%string := CssNumber (x pos);
                           "position"%string := CssKeyword "fixed";
                           "top"%string := CssNumber (y pos);
                           "zIndex"%string := CssNumber 1000 ]};
              elementChildren := children props applyFormat |}
  | _, _ => None
  end.

End FormattingToolbarComponent.

(** ** withFormattingToolbar.ts

    The two handlers the wrapper installs; [props.onFocus] and [props.onBlur]
    are the caller's, called when they are functions. *)
Module WithFormattingToolbar.




End WithFormattingToolbar.

(** ** Further notions used in the statements *)

(** The last snapshot a subscriber received in a stretch of the trace, or the
    one it had before. *)
Definition latest (c : Callback) (before : ToolbarState) (t : list Effect) : ToolbarState :=
  match last (callsTo c t) with Some s => s | None => before end.

(** A positioning function that returns on every element. *)
Definition returns (gp : option PositionFn) : Prop :=
  ∀ e, ∃ p, nullish gp defaultGetPosition e = Normal p.

Definition position_returns (op : Op) : Prop :=
  match op with ShowToolbar _ gp => returns gp | _ => True end.

(** The calls that write to the page. *)
Definition writes_dom (op : Op) : Prop :=
  match op with ApplyFormat _ _ | UserEdit _ _ => True | _ => False end.

(** ** The manager among the callbacks of its host

    The methods once more, with what the host and the callbacks may do in the
    middle of a call.  A subscriber or a change handler may throw: the
    exception ends [forEach], or [updateElementValue], and leaves the method
    that made the call.  And [focus()] on an element that does not have the
    focus runs the focus handler the hook put on it,
    [showToolbar(element, getPosition)].

    [sub] and [handler] tell how a call of a subscriber and of a change
    handler ends, in the world in which the call is made.  The trace of
    that world holds every call made so far, so the same callback may return
    at one call and throw at another.  The callbacks themselves call no
    method of the manager, as the state setters of the hooks do not.  With
    callbacks that return and an active element that has the focus these are
    the methods above. *)
Module InHost.

(** How a call to the outside ends. *)
Definition answer {A : Type} (f : World → completion A) : M A := λ w, (w, f w).

Section Callbacks.
Variable sub : Callback → World → completion unit.
Variable handler : Handler → World → completion unit.

(** [callback(this.getState())] *)
Definition callSubscriber (callback : Callback) : M unit :=
  s ← getState;
  emit (Notify callback s);;
  answer (sub callback).

Definition setState (newState : PartialToolbarState) : M unit :=
  this_set (λ m, with_state (spread (state m) newState) m);;
  subs ← this subscribers;
  forEach subs callSubscriber.

Definition hideToolbar : M unit :=
  clearHideTimeout;;
  this_set (with_activeElementOnChange None);;
  setState {| new_activeElement := Some None;
              new_isVisible := Some false;
              new_position := Some None |}.

Definition showToolbar (element : Elem) (getPosition : option PositionFn) : M unit :=
  let getPosition := nullish getPosition defaultGetPosition in
  clearHideTimeout;;
  elementWithProps ← readElement element;
  this_set (with_activeElementOnChange
              (match props elementWithProps with
               | Some p => onChange p
               | None => None
               end));;
  pos ← liftC (getPosition elementWithProps);
  setState {| new_activeElement := Some (Some element);
              new_isVisible := Some true;
              new_position := Some (Some pos) |}.

(** domUtils.ts, [updateElementValue]: [onChange(syntheticEvent)] may throw. *)
Definition updateElementValue (element : Elem) (newValue : string)
    (onChange : option Handler) : M unit :=
  writeValue element newValue;;
  emit (DispatchEvent element "input" true);;
  match onChange with
  | Some h => emit (ChangeCalled h element element);; answer (handler h)
  | None => mret tt
  end.

(** [element.focus()].  [onFocus] is the [getPosition] of the hook's focus
    handler when the element carries that handler and does not have the
    focus, and [None] otherwise.  The element that gives up the focus is
    taken to carry no blur handler of the hook.  The host reports an
    exception of a listener; it does not reach the caller of [focus]. *)
Definition focus (element : Elem) (onFocus : option PositionFn) : M unit :=
  emit (Focus element);;
  match onFocus with
  | Some getPosition => modify (λ w, (showToolbar element (Some getPosition) w).1)
  | None => mret tt
  end.

Definition applyFormat (formatter : FormatterFunction) (onChange : option Handler)
    (onFocus : option PositionFn) : M unit :=
  s ← this state;
  match activeElement s with
  | None => emit (ConsoleWarn "No active element found for formatting")
  | Some activeElement =>
      element ← readElement activeElement;
      newValue ← liftC (applyFormattingOnSelection element formatter);
      stored ← this activeElementOnChange;
      let onChangeHandler := js_or onChange stored in
      updateElementValue activeElement newValue onChangeHandler;;
      focus activeElement onFocus
  end.

(** The host takes the timer off its queue and calls [() => this.hideToolbar()];
    an exception of the callback is reported by the host. *)
Definition fireTimer (t : Timer) : M unit :=
  modify (λ w, with_timers (filter (λ t', timerId t' ≠ timerId t) (timers w)) w);;
  emit (TimerFired (timerId t));;
  hideToolbar.

Fixpoint runDueTimers (fuel : nat) (w : World) : World :=
  match fuel with
  | O => w
  | S fuel' =>
      match List.find (isDue (clock w)) (timers w) with
      | Some t => runDueTimers fuel' (fireTimer t w).1
      | None => w
      end
  end.

Definition runTimers (w : World) : World :=
  runDueTimers (List.length (timers w)) w.

Fixpoint elapse (ms : nat) (w : World) : World :=
  match ms with
  | O => runTimers w
  | S ms' => elapse ms' (with_clock (S (clock w)) (runTimers w))
  end.

(** The calls of the event handlers of a page; [applyFormat] comes with what
    [focus()] will find. *)
Inductive Call : Type :=
| ShowToolbar (element : Elem) (getPosition : option PositionFn)
| HideToolbar
| ScheduleHide (delay : Z)
| CancelScheduledHide
| ApplyFormat (formatter : FormatterFunction) (onChange : option Handler)
    (onFocus : option PositionFn)
| Subscribe (callback : Callback)
| CallUnsubscribe (u : Unsubscribe)
| GetState
| Elapse (ms : nat)
| UserEdit (element : Elem) (content : Element).

(** One call from an event handler; an exception ends the call and leaves the
    world as the call left it. *)
Definition exec (call : Call) (w : World) : World :=
  match call with
  | ShowToolbar element getPosition => (showToolbar element getPosition w).1
  | HideToolbar => (hideToolbar w).1
  | ScheduleHide delay => (scheduleHide delay w).1
  | CancelScheduledHide => (cancelScheduledHide w).1
  | ApplyFormat formatter onChange onFocus =>
      (applyFormat formatter onChange onFocus w).1
  | Subscribe callback => (subscribe callback w).1
  | CallUnsubscribe u => (callUnsubscribe u w).1
  | GetState => (getState w).1
  | Elapse ms => elapse ms w
  | UserEdit element content => with_dom (<[element := content]> (dom w)) w
  end.

Definition run (calls : list Call) (w : World) : World :=
  foldl (λ w call, exec call w) w calls.

Definition Reachable (w : World) : Prop :=
  ∃ d calls, w = run calls (initialWorld d).

End Callbacks.

End InHost.

(** ** Notions used in the statements about the manager in its host *)

(** The subscribers that one [forEach] over the set calls, from the world in
    which it starts: those up to the first call that throws, that one
    included. *)
Fixpoint called (sub : Callback → World → completion unit) (w : World)
    (subs : list Callback) : list Callback :=
  match subs with
  | [] => []
  | c :: rest =>
      let w' := with_trace (trace w ++ [Notify c (state (manager w))]) w in
      c :: match sub c w' with
           | Normal _ => called sub w' rest
           | Throw _ => []
           end
  end.

(** How that [forEach] ends. *)
Fixpoint outcome (sub : Callback → World → completion unit) (w : World)
    (subs : list Callback) : completion unit :=
  match subs with
  | [] => Normal tt
  | c :: rest =>
      let w' := with_trace (trace w ++ [Notify c (state (manager w))]) w in
      match sub c w' with
      | Normal _ => outcome sub w' rest
      | Throw err => Throw err
      end
  end.

(** What that [forEach] appends to the trace. *)
Definition delivered (sub : Callback → World → completion unit) (w : World)
    (subs : list Callback) : list Effect :=
  notifyAll (state (manager w)) (called sub w subs).

(** The subscribers of [subs] return at every call. *)
Definition all_return (sub : Callback → World → completion unit)
    (subs : list Callback) : Prop :=
  Forall (λ c, ∀ w, sub c w = Normal tt) subs.

(** [c] is in the set and the subscribers before it return at every call. *)
Definition heard (sub : Callback → World → completion unit) (c : Callback)
    (subs : list Callback) : Prop :=
  ∃ before after, subs = before ++ c :: after ∧ all_return sub before.

(** A subscriber that stays heard sees the manager's state. *)
Definition mirror_step (sub : Callback → World → completion unit) (c : Callback)
    (w w' : World) : Prop :=
  heard sub c (subscribers (manager w'))
  ∧ ∃ suffix, trace w' = trace w ++ suffix
              ∧ state (manager w') = latest c (state (manager w)) suffix.


(** The world in which [hideToolbar] calls the subscribers. *)
Definition hidden (w : World) : World :=
  {| manager := {| activeElementOnChange := None; hideTimeout := None;
                   state := initialState;
                   subscribers := subscribers (manager w) |};
     dom := dom w; timers := cleared w; clock := clock w;
     nextTimer := nextTimer w; trace := trace w |}.

(** The world in which [showToolbar] calls the subscribers, when
    [getPosition] has returned [pos]. *)
Definition shown (w : World) (element : Elem) (pos : ToolbarPosition) : World :=
  {| manager := with_state {| activeElement := Some element; isVisible := true;
                              position := Some pos |}
                  (with_activeElementOnChange (capturedOnChange (dom w !!! element))
                     (with_hideTimeout None (manager w)));
     dom := dom w; timers := cleared w; clock := clock w;
     nextTimer := nextTimer w; trace := trace w |}.

(** What [updateElementValue] appends to the trace, up to and including the
    call of the change handler. *)
Definition changeEffects (element : Elem) (newValue : string)
    (chosen : option Handler) : list Effect :=
  [ValueWritten element newValue; DispatchEvent element "input" true]
  ++ match chosen with
     | Some h => [ChangeCalled h element element]
     | None => []
     end.

(** The world in which the change handler is called. *)
Definition changed (w : World) (el : Elem) (newValue : string)
    (chosen : option Handler) : World :=
  let e := dom w !!! el in
  {| manager := manager w;
     dom := <[el := {| value := Some newValue;
                       selectionStart := selectionStart e;
                       selectionEnd := selectionEnd e;
                       props := props e;
                       boundingClientRect := boundingClientRect e |}]> (dom w);
     timers := timers w; clock := clock w; nextTimer := nextTimer w;
     trace := trace w ++ changeEffects el newValue chosen |}.

(** How the call of the chosen change handler ends; no handler, no call. *)
Definition handlerOutcome (handler : Handler → World → completion unit)
    (chosen : option Handler) (w : World) : completion unit :=
  match chosen with
  | Some h => handler h w
  | None => Normal tt
  end.

(** What [applyFormat] appends to the trace when the change handler returns,
    up to and including the call of [focus()]. *)
Definition formatEffects (element : Elem) (newValue : string)
    (chosen : option Handler) : list Effect :=
  changeEffects element newValue chosen ++ [Focus element].

(** The world in which [focus()] runs the listeners. *)
Definition formatted (w : World) (el : Elem) (newValue : string)
    (onChange : option Handler) : World :=
  let chosen := js_or onChange (activeElementOnChange (manager w)) in
  with_trace (trace w ++ formatEffects el newValue chosen)
    (changed w el newValue chosen).

(** The calls of change handlers: handler, [currentTarget], [target]. *)
Definition handlerCalls (t : list Effect) : list (Handler * Elem * Elem) :=
  omap (λ e, match e with
             | ChangeCalled h currentTarget target => Some (h, currentTarget, target)
             | _ => None
             end) t.

(** A positioning function that throws. *)
Definition throwingPosition : PositionFn := λ _, Throw "no layout".

(** The text [applyFormattingOnSelection] hands to the formatter. *)
Definition formatterInput (element : Element) : string :=
  let selectionEnd := nullish (selectionEnd element) 0 in
  let selectionStart := nullish (selectionStart element) 0 in
  let value := nullish (value element) EmptyString in
  if selectionStart <? selectionEnd
  then js_substring value selectionStart (Some selectionEnd)
  else value.

(** The calls that may replace the stored change handler. *)
Definition shows (call : InHost.Call) : Prop :=
  match call with
  | InHost.ShowToolbar _ _ => True
  | InHost.ApplyFormat _ _ (Some _) => True
  | _ => False
  end.

(** The stored change handler is [h] whenever [el] is the active element. *)
Definition handler_kept (el : Elem) (h : option Handler) (w : World) : Prop :=
  activeElement (state (manager w)) = Some el →
  activeElementOnChange (manager w) = h.

(** Callbacks that return at every call; subscriber 3 throwing at every
    call, and at its first call only; change handler 7 throwing. *)
Definition returning : nat → World → completion unit := λ _ _, Normal tt.
Definition throwing3 : Callback → World → completion unit := λ c _,
  if decide (c = 3%nat) then Throw "subscriber 3 failed" else Normal tt.
Definition throwing7 : Handler → World → completion unit := λ h _,
  if decide (h = 7%nat) then Throw "handler 7 failed" else Normal tt.

(** A call of the first part, as a call of the manager in its host: the
    same call, with a [focus()] that runs no listener. *)
Definition inHost (op : Op) : InHost.Call :=
  match op with
  | ShowToolbar element getPosition => InHost.ShowToolbar element getPosition
  | HideToolbar => InHost.HideToolbar
  | ScheduleHide delay => InHost.ScheduleHide delay
  | CancelScheduledHide => InHost.CancelScheduledHide
  | ApplyFormat formatter onChange => InHost.ApplyFormat formatter onChange None
  | Subscribe callback => InHost.Subscribe callback
  | CallUnsubscribe u => InHost.CallUnsubscribe u
  | GetState => InHost.GetState
  | Elapse ms => InHost.Elapse ms
  | UserEdit element content => InHost.UserEdit element content
  end.

(** *** The readings of the specification that the code does not follow *)



(** After [show(element)] has returned and while [element] is the active
    one, [applyFormat] without an [onChange] calls the handler that
    [element] had in its props at that [show], and no other. *)
Definition uses_handler_captured_at_show
    (sub : Callback → World → completion unit)
    (handler : Handler → World → completion unit)
    (w0 : World) (element : Elem) (getPosition : option PositionFn)
    (calls : list InHost.Call) (formatter : FormatterFunction)
    (onFocus : option PositionFn) : Prop :=
  let shown := InHost.showToolbar sub element getPosition w0 in
  let w := InHost.run sub handler calls shown.1 in
  shown.2 = Normal tt →
  activeElement (state (manager w)) = Some element →
  ∀ newValue,
    applyFormattingOnSelection (dom w !!! element) formatter = Normal newValue →
    handlerCalls (trace (InHost.applyFormat sub handler formatter None onFocus w).1)
    = handlerCalls (trace w)
      ++ match capturedOnChange (dom w0 !!! element) with
         | Some h => [(h, element, element)]
         | None => []
         end.

(** [applyFormat] changes no snapshot and calls no subscriber. *)
Definition applyFormat_is_silent (sub : Callback → World → completion unit)
    (handler : Handler → World → completion unit) (w : World)
    (formatter : FormatterFunction) (onChange : option Handler)
    (onFocus : option PositionFn) : Prop :=
  let w' := (InHost.applyFormat sub handler formatter onChange onFocus w).1 in
  (getState w').2 = (getState w).2
  ∧ published (trace w') = published (trace w).

(** * Proofs *)

(** ** Strings *)

Section Strings.
Implicit Types (s : string) (n m k : nat) (a b i : Z).

Lemma substring_of_empty n m : String.substring n m EmptyString = EmptyString.
Proof. destruct n, m; reflexivity. Qed.

Lemma substring_none n s : String.substring n 0 s = EmptyString.
Proof.
  revert n. induction s as [|c s IH]; intros [|n]; cbn; try reflexivity. apply IH.
Qed.

Lemma substring_whole s : String.substring 0 (String.length s) s = s.
Proof. induction s as [|c s IH]; cbn; [reflexivity | by rewrite IH]. Qed.

(** A range of [m + k] characters is a range of [m] followed by one of [k]. *)
Lemma substring_add n m k s :
  String.substring n (m + k) s
  = String.substring n m s +:+ String.substring (n + m) k s.
Proof.
  revert n m. induction s as [|c s IH]; intros n m.
  - by rewrite !substring_of_empty.
  - destruct n as [|n]; cbn.
    + destruct m as [|m]; cbn; [reflexivity|].
      by rewrite (IH 0%nat m).
    + apply IH.
Qed.

(** The three pieces cut at [n <= m] make up the string. *)
Lemma substring_partition n m s :
  (n ≤ m ≤ String.length s)%nat →
  String.substring 0 n s +:+ String.substring n (m - n) s
    +:+ String.substring m (String.length s - m) s = s.
Proof.
  intros H.
  pose proof (substring_whole s) as E.
  replace (String.length s) with (n + ((m - n) + (String.length s - m)))%nat in E at 1 by lia.
  rewrite (substring_add 0), (substring_add (0 + n)) in E.
  replace (0 + n + (m - n))%nat with m in E by lia. exact E.
Qed.

Lemma clamp_bounds lo hi a : lo ≤ hi → lo ≤ clamp lo hi a ≤ hi.
Proof. unfold clamp. lia. Qed.

Lemma clamp_mono lo hi a b : a ≤ b → clamp lo hi a ≤ clamp lo hi b.
Proof. unfold clamp. lia. Qed.

(** [js_substring] in natural numbers, for offsets in order. *)
Lemma js_substring_ordered s a b :
  a ≤ b →
  js_substring s a (Some b)
  = String.substring (Z.to_nat (clamp 0 (strlen s) a))
      (Z.to_nat (clamp 0 (strlen s) b) - Z.to_nat (clamp 0 (strlen s) a)) s.
Proof.
  intros H. unfold js_substring. fold (strlen s).
  assert (0 ≤ strlen s) by (unfold strlen; lia).
  pose proof (clamp_mono 0 (strlen s) a b H).
  pose proof (clamp_bounds 0 (strlen s) a).
  rewrite Z.min_l, Z.max_r by lia. f_equal. lia.
Qed.

Lemma js_substring_prefix s b :
  js_substring s 0 (Some b)
  = String.substring 0 (Z.to_nat (clamp 0 (strlen s) b)) s.
Proof.
  unfold js_substring. fold (strlen s).
  assert (0 ≤ strlen s) by (unfold strlen; lia).
  assert (clamp 0 (strlen s) 0 = 0) as -> by (unfold clamp; lia).
  pose proof (clamp_bounds 0 (strlen s) b).
  rewrite Z.min_l, Z.max_r by lia. f_equal. lia.
Qed.

Lemma js_substring_suffix s a :
  js_substring s a None
  = String.substring (Z.to_nat (clamp 0 (strlen s) a))
      (String.length s - Z.to_nat (clamp 0 (strlen s) a)) s.
Proof.
  unfold js_substring. fold (strlen s).
  assert (0 ≤ strlen s) by (unfold strlen; lia).
  pose proof (clamp_bounds 0 (strlen s) a).
  rewrite Z.min_l, Z.max_r by lia. f_equal. unfold strlen in *. lia.
Qed.

(** The index reading and the [substring] reading of a range agree. *)
Lemma slice_from_substring s i a b :
  slice_from i s a b
  = String.substring (Z.to_nat (clamp 0 (strlen s) (a - i)))
      (Z.to_nat (clamp 0 (strlen s) (b - i) - clamp 0 (strlen s) (a - i))) s.
Proof.
  revert i. induction s as [|c s IH]; intros i.
  - by rewrite substring_of_empty.
  - cbn [slice_from]. rewrite IH.
    assert (strlen (String c s) = strlen s + 1) as Hlen
      by (unfold strlen; cbn [String.length]; lia).
    assert (0 ≤ strlen s) as Hpos by (unfold strlen; lia).
    rewrite Hlen. unfold clamp.
    destruct (Z.leb_spec a i) as [Ha|Ha], (Z.ltb_spec i b) as [Hb|Hb]; cbn [andb].
    + replace (Z.to_nat (Z.min (Z.max (a - i) 0) (strlen s + 1))) with 0%nat by lia.
      replace (Z.to_nat (Z.min (Z.max (b - i) 0) (strlen s + 1)
                         - Z.min (Z.max (a - i) 0) (strlen s + 1)))
        with (S (Z.to_nat (Z.min (Z.max (b - (i + 1)) 0) (strlen s)
                           - Z.min (Z.max (a - (i + 1)) 0) (strlen s)))) by lia.
      replace (Z.to_nat (Z.min (Z.max (a - (i + 1)) 0) (strlen s))) with 0%nat by lia.
      reflexivity.
    + replace (Z.to_nat (Z.min (Z.max (a - i) 0) (strlen s + 1))) with 0%nat by lia.
      replace (Z.to_nat (Z.min (Z.max (b - i) 0) (strlen s + 1)
                         - Z.min (Z.max (a - i) 0) (strlen s + 1))) with 0%nat by lia.
      replace (Z.to_nat (Z.min (Z.max (b - (i + 1)) 0) (strlen s)
                         - Z.min (Z.max (a - (i + 1)) 0) (strlen s))) with 0%nat by lia.
      by rewrite !substring_none.
    + replace (Z.to_nat (Z.min (Z.max (a - i) 0) (strlen s + 1)))
        with (S (Z.to_nat (Z.min (Z.max (a - (i + 1)) 0) (strlen s)))) by lia.
      cbn [String.substring]. f_equal. lia.
    + replace (Z.to_nat (Z.min (Z.max (a - i) 0) (strlen s + 1)))
        with (S (Z.to_nat (Z.min (Z.max (a - (i + 1)) 0) (strlen s)))) by lia.
      cbn [String.substring]. f_equal. lia.
Qed.

Lemma slice_js_substring s a b :
  a ≤ b → slice s a b = js_substring s a (Some b).
Proof.
  intros H. unfold slice. rewrite slice_from_substring, js_substring_ordered by done.
  rewrite !Z.sub_0_r. f_equal.
  assert (0 ≤ strlen s) by (unfold strlen; lia).
  pose proof (clamp_mono 0 (strlen s) a b H).
  pose proof (clamp_bounds 0 (strlen s) a). lia.
Qed.

Lemma slice_prefix s b : slice s 0 b = js_substring s 0 (Some b).
Proof.
  unfold slice. rewrite slice_from_substring, js_substring_prefix.
  rewrite !Z.sub_0_r.
  assert (0 ≤ strlen s) by (unfold strlen; lia).
  assert (clamp 0 (strlen s) 0 = 0) as -> by (unfold clamp; lia).
  pose proof (clamp_bounds 0 (strlen s) b).
  f_equal. lia.
Qed.

Lemma slice_suffix s a : slice s a (strlen s) = js_substring s a None.
Proof.
  unfold slice. rewrite slice_from_substring, js_substring_suffix.
  rewrite !Z.sub_0_r.
  assert (0 ≤ strlen s) by (unfold strlen; lia).
  pose proof (clamp_bounds 0 (strlen s) a).
  assert (clamp 0 (strlen s) (strlen s) = strlen s) as -> by (unfold clamp; lia).
  f_equal. unfold strlen in *. lia.
Qed.
End Strings.

(** ** Closed forms of the methods *)

Lemma forEach_callSubscriber (l : list nat) (w : World) :
  forEach l callSubscriber w
  = (with_trace (trace w ++ notifyAll (state (manager w)) l) w, Normal tt).
Proof.
  revert w. induction l as [|c l IH]; intros w.
  - destruct w. cbn. rewrite app_nil_r. reflexivity.
  - cbn [forEach]. run_M. rewrite IH. cbn. rewrite <- app_assoc. reflexivity.
Qed.

Lemma setState_all (a : option nat) (v : bool) (p : option ToolbarPosition) (w : World) :
  let s := {| activeElement := a; isVisible := v; position := p |} in
  setState {| new_activeElement := Some a; new_isVisible := Some v;
              new_position := Some p |} w
  = (with_trace (trace w ++ notifyAll s (subscribers (manager w)))
       (with_manager (with_state s (manager w)) w),
     Normal tt).
Proof.
  unfold setState. run_M. rewrite forEach_callSubscriber. reflexivity.
Qed.

Lemma clearHideTimeout_eq (w : World) :
  clearHideTimeout w
  = (with_timers (cleared w) (with_manager (with_hideTimeout None (manager w)) w),
     Normal tt).
Proof.
  unfold clearHideTimeout, cleared. run_M.
  destruct w as [[h [id|] s subs] d ts c n t]; reflexivity.
Qed.

Lemma hideToolbar_eq (w : World) :
  hideToolbar w
  = ({| manager := {| activeElementOnChange := None; hideTimeout := None;
                      state := initialState;
                      subscribers := subscribers (manager w) |};
        dom := dom w; timers := cleared w; clock := clock w;
        nextTimer := nextTimer w;
        trace := trace w ++ notifyAll initialState (subscribers (manager w)) |},
     Normal tt).
Proof.
  unfold hideToolbar.
  cbv [mbind M_bind]. rewrite clearHideTimeout_eq. run_M.
  rewrite setState_all. reflexivity.
Qed.

Lemma scheduleHide_eq (delay : Z) (w : World) :
  scheduleHide delay w
  = ({| manager := with_hideTimeout (Some (nextTimer w)) (manager w);
        dom := dom w;
        timers := cleared w ++ [{| timerId := nextTimer w;
                                   due := (clock w + timerDelay delay)%nat |}];
        clock := clock w; nextTimer := Pos.succ (nextTimer w);
        trace := trace w |},
     Normal tt).
Proof.
  unfold scheduleHide.
  cbv [mbind M_bind]. rewrite clearHideTimeout_eq. run_M. reflexivity.
Qed.

Lemma showToolbar_eq (element : nat) (getPosition : option PositionFn) (w : World) :
  let e := dom w !!! element in
  let m := with_activeElementOnChange (capturedOnChange e)
             (with_hideTimeout None (manager w)) in
  showToolbar element getPosition w
  = match nullish getPosition defaultGetPosition e with
    | Normal pos =>
        let s := {| activeElement := Some element; isVisible := true;
                    position := Some pos |} in
        ({| manager := with_state s m; dom := dom w; timers := cleared w;
            clock := clock w; nextTimer := nextTimer w;
            trace := trace w ++ notifyAll s (subscribers (manager w)) |},
         Normal tt)
    | Throw err =>
        ({| manager := m; dom := dom w; timers := cleared w; clock := clock w;
            nextTimer := nextTimer w; trace := trace w |},
         Throw err)
    end.
Proof.
  unfold showToolbar.
  cbv [mbind M_bind]. rewrite clearHideTimeout_eq. run_M.
  cbn [dom with_timers with_manager manager].
  destruct (nullish getPosition defaultGetPosition (dom w !!! element)) as [pos|err];
    [rewrite setState_all|]; reflexivity.
Qed.

Lemma applyFormat_eq (formatter : FormatterFunction) (onChange : option nat) (w : World) :
  applyFormat formatter onChange w
  = match activeElement (state (manager w)) with
    | None =>
        (with_trace (trace w ++ [ConsoleWarn "No active element found for formatting"]) w,
         Normal tt)
    | Some el =>
        let e := dom w !!! el in
        match applyFormattingOnSelection e formatter with
        | Normal newValue =>
            ({| manager := manager w;
                dom := <[el := {| value := Some newValue;
                                  selectionStart := selectionStart e;
                                  selectionEnd := selectionEnd e;
                                  props := props e;
                                  boundingClientRect := boundingClientRect e |}]> (dom w);
                timers := timers w; clock := clock w; nextTimer := nextTimer w;
                trace := trace w
                         ++ [ValueWritten el newValue; DispatchEvent el "input" true]
                         ++ match js_or onChange (activeElementOnChange (manager w)) with
                            | Some h => [ChangeCalled h el el]
                            | None => []
                            end
                         ++ [Focus el] |},
             Normal tt)
        | Throw err => (w, Throw err)
        end
    end.
Proof.
  unfold applyFormat. run_M.
  destruct (activeElement (state (manager w))) as [el|]; [|reflexivity].
  destruct (applyFormattingOnSelection (dom w !!! el) formatter) as [v|err];
    [|reflexivity].
  unfold updateElementValue. run_M.
  destruct (js_or onChange (activeElementOnChange (manager w)));
    cbn; rewrite <- ?app_assoc; reflexivity.
Qed.

(** ** The event loop *)

Lemma fireTimer_eq (t : Timer) (w : World) :
  fireTimer t w
  = ({| manager := {| activeElementOnChange := None; hideTimeout := None;
                      state := initialState;
                      subscribers := subscribers (manager w) |};
        dom := dom w;
        timers := cleared (with_timers (filter (λ t', timerId t' ≠ timerId t) (timers w)) w);
        clock := clock w; nextTimer := nextTimer w;
        trace := trace w ++ [TimerFired (timerId t)]
                 ++ notifyAll initialState (subscribers (manager w)) |},
     Normal tt).
Proof.
  unfold fireTimer. run_M. rewrite hideToolbar_eq. cbn. rewrite <- app_assoc. reflexivity.
Qed.

Lemma with_clock_same (w : World) : with_clock (clock w) w = w.
Proof. by destruct w. Qed.

Lemma filter_own_timer (id : positive) (d : nat) :
  filter (λ t, timerId t ≠ id) [{| timerId := id; due := d |}] = [].
Proof. cbn. case_decide; [done | reflexivity]. Qed.

Lemma cleared_single_slot (w : World) : single_slot w → cleared w = [].
Proof.
  unfold single_slot, cleared. destruct (hideTimeout (manager w)) as [id|]; [|done].
  intros [d ->]. apply filter_own_timer.
Qed.

Lemma cleared_no_timers (w : World) : timers w = [] → cleared w = [].
Proof. unfold cleared. intros ->. by destruct (hideTimeout (manager w)). Qed.

Lemma runTimers_none (w : World) : timers w = [] → runTimers w = w.
Proof. unfold runTimers. by intros ->. Qed.

Lemma runTimers_one (t : Timer) (w : World) :
  timers w = [t] →
  runTimers w = if isDue (clock w) t then (fireTimer t w).1 else w.
Proof.
  intros Ht. unfold runTimers. rewrite Ht. cbn [List.length runDueTimers].
  rewrite Ht. cbn [List.find]. by destruct (isDue (clock w) t).
Qed.

(** The one pending timer fires: the toolbar is hidden, the queue is empty. *)
Lemma fireTimer_one (t : Timer) (w : World) :
  timers w = [t] →
  (fireTimer t w).1
  = {| manager := {| activeElementOnChange := None; hideTimeout := None;
                     state := initialState;
                     subscribers := subscribers (manager w) |};
       dom := dom w; timers := []; clock := clock w; nextTimer := nextTimer w;
       trace := trace w ++ [TimerFired (timerId t)]
                ++ notifyAll initialState (subscribers (manager w)) |}.
Proof.
  intros Ht. rewrite fireTimer_eq. cbn [fst]. f_equal.
  apply cleared_no_timers. cbn. rewrite Ht. destruct t. apply filter_own_timer.
Qed.

Lemma fireTimer_last (t : Timer) (w : World) :
  timers w = [t] → timers (fireTimer t w).1 = [].
Proof. intros Ht. by rewrite fireTimer_one. Qed.

(** With nothing pending, time passes and nothing else happens. *)
Lemma elapse_idle (n : nat) (w : World) :
  timers w = [] → elapse n w = with_clock (clock w + n) w.
Proof.
  revert w. induction n as [|n IH]; intros w Ht; cbn [elapse];
    rewrite runTimers_none by done.
  - rewrite Nat.add_0_r. by rewrite with_clock_same.
  - rewrite IH by done. destruct w. unfold with_clock. cbn. f_equal. lia.
Qed.

(** Before its deadline a pending timer does not fire. *)
Lemma elapse_early (n : nat) (t : Timer) (w : World) :
  timers w = [t] → (clock w + n < due t)%nat →
  elapse n w = with_clock (clock w + n) w.
Proof.
  revert w. induction n as [|n IH]; intros w Ht Hlt; cbn [elapse];
    rewrite (runTimers_one t) by done; unfold isDue;
    destruct (Nat.leb_spec (due t) (clock w)); try lia.
  - rewrite Nat.add_0_r. by rewrite with_clock_same.
  - rewrite IH; [|done|cbn; lia].
    destruct w. unfold with_clock. cbn. f_equal. lia.
Qed.

(** From its deadline on, the one pending timer has fired, once. *)
Lemma elapse_late (n : nat) (t : Timer) (w : World) :
  timers w = [t] → (due t ≤ clock w + n)%nat →
  elapse n w = with_clock (clock w + n) (fireTimer t w).1.
Proof.
  revert w. induction n as [|n IH]; intros w Ht Hle; cbn [elapse];
    rewrite (runTimers_one t) by done; unfold isDue;
    destruct (Nat.leb_spec (due t) (clock w)); try lia.
  - rewrite Nat.add_0_r. rewrite fireTimer_eq. reflexivity.
  - rewrite elapse_idle by (cbn; by apply fireTimer_last).
    rewrite fireTimer_eq. cbn. unfold with_clock. cbn. f_equal. lia.
  - rewrite IH; [|done|cbn; lia].
    rewrite !fireTimer_eq. cbn. unfold with_clock, cleared. cbn. f_equal. lia.
Qed.

(** A property kept by a firing timer and by the clock is kept by [elapse]. *)
Lemma runDueTimers_keeps (P : World → Prop) :
  (∀ t w, P w → P (fireTimer t w).1) →
  ∀ fuel w, P w → P (runDueTimers fuel w).
Proof.
  intros Hfire. induction fuel as [|fuel IH]; intros w Hw; cbn; [done|].
  destruct (List.find _ _); [apply IH, Hfire|]; done.
Qed.

Lemma elapse_keeps (P : World → Prop) :
  (∀ t w, P w → P (fireTimer t w).1) →
  (∀ c w, P w → P (with_clock c w)) →
  ∀ n w, P w → P (elapse n w).
Proof.
  intros Hfire Hclock. induction n as [|n IH]; intros w Hw; cbn [elapse].
  - unfold runTimers. by apply runDueTimers_keeps.
  - apply IH, Hclock. unfold runTimers. by apply runDueTimers_keeps.
Qed.

(** ** The single timer slot *)

Lemma elapse_single_slot (n : nat) (w : World) :
  single_slot w → single_slot (elapse n w).
Proof.
  intros Hw. pose proof Hw as Hw'. unfold single_slot in Hw'.
  destruct (hideTimeout (manager w)) as [id|] eqn:Hid.
  - destruct Hw' as [d Ht].
    destruct (decide (clock w + n < d)%nat) as [Hlt|Hge].
    + rewrite (elapse_early n _ w Ht) by done.
      unfold single_slot. cbn. rewrite Hid. eauto.
    + rewrite (elapse_late n _ w Ht) by (cbn; lia).
      by rewrite fireTimer_one.
  - rewrite elapse_idle by done. unfold single_slot. cbn. by rewrite Hid.
Qed.

Lemma exec_single_slot (op : Op) (w : World) :
  single_slot w → single_slot (exec op w).
Proof.
  intros Hw. pose proof (cleared_single_slot w Hw) as Hc.
  destruct op as [el gp| |delay| |f oc|c|[c]| |n|el e]; cbn [exec].
  - rewrite showToolbar_eq. cbn zeta.
    destruct (nullish gp defaultGetPosition _); unfold single_slot; cbn; by rewrite Hc.
  - rewrite hideToolbar_eq. unfold single_slot; cbn. by rewrite Hc.
  - rewrite scheduleHide_eq. unfold single_slot; cbn. rewrite Hc. eauto.
  - unfold cancelScheduledHide. rewrite clearHideTimeout_eq. unfold single_slot; cbn.
    by rewrite Hc.
  - rewrite applyFormat_eq.
    destruct (activeElement _); [cbn zeta; destruct (applyFormattingOnSelection _ _)|];
      exact Hw.
  - exact Hw.
  - exact Hw.
  - exact Hw.
  - by apply elapse_single_slot.
  - exact Hw.
Qed.

Lemma run_snoc (ops : list Op) (op : Op) (w : World) :
  run (ops ++ [op]) w = exec op (run ops w).
Proof. unfold run. by rewrite foldl_app. Qed.

Lemma Reachable_ind' (P : World → Prop) :
  (∀ d, P (initialWorld d)) →
  (∀ op w, Reachable w → P w → P (exec op w)) →
  ∀ w, Reachable w → P w.
Proof.
  intros Hinit Hstep w (d & ops & ->).
  induction ops as [|op ops IH] using rev_ind; [apply Hinit|].
  rewrite run_snoc. apply Hstep; [by exists d, ops | exact IH].
Qed.

Lemma Reachable_single_slot (w : World) : Reachable w → single_slot w.
Proof.
  apply Reachable_ind'; [done|]. intros op w' _. apply exec_single_slot.
Qed.

Lemma Reachable_exec (op : Op) (w : World) : Reachable w → Reachable (exec op w).
Proof. intros (d & ops & ->). exists d, (ops ++ [op]). by rewrite run_snoc. Qed.

(** ** Steps that leave the subscriber set alone *)

Lemma quiet_refl (w : World) : quiet_step w w.
Proof.
  split_and!; [done..|]. exists []. by rewrite app_nil_r.
Qed.

Lemma quiet_trans (w1 w2 w3 : World) :
  quiet_step w1 w2 → quiet_step w2 w3 → quiet_step w1 w3.
Proof.
  intros (Hs1 & Hi1 & t1 & Ht1 & Hok1) (Hs2 & Hi2 & t2 & Ht2 & Hok2).
  split_and!; [congruence | tauto |].
  exists (t1 ++ t2). split; [by rewrite Ht2, Ht1, app_assoc|].
  apply Forall_app. split; [done|]. by rewrite <- Hs1.
Qed.

Lemma notifyAll_ok (s : ToolbarState) (subs : list nat) :
  hidden_or_shown s → Forall (notif_ok subs) (notifyAll s subs).
Proof.
  intros Hs. apply Forall_forall. intros e (c & -> & Hc)%list_elem_of_fmap. done.
Qed.

Lemma hidden_ok : hidden_or_shown initialState.
Proof. by left. Qed.

Lemma shown_ok (e : nat) (p : ToolbarPosition) :
  hidden_or_shown {| activeElement := Some e; isVisible := true; position := Some p |}.
Proof. right. eauto. Qed.

Create HintDb quiet.
#[local] Hint Resolve hidden_ok shown_ok notifyAll_ok quiet_refl : quiet.

(** A step that keeps the manager's state and set and appends no
    notification is quiet. *)
Lemma quiet_silent (w w' : World) (suffix : list Effect) :
  subscribers (manager w') = subscribers (manager w) →
  state (manager w') = state (manager w) →
  trace w' = trace w ++ suffix →
  Forall (λ e, match e with Notify _ _ => False | _ => True end) suffix →
  quiet_step w w'.
Proof.
  intros Hs Hst Ht Hn. split_and!; [done | by rewrite Hst |].
  exists suffix. split; [done|].
  eapply Forall_impl; [exact Hn|]. by intros [].
Qed.

Lemma quiet_hideToolbar (w : World) : quiet_step w (hideToolbar w).1.
Proof.
  rewrite hideToolbar_eq. split_and!; cbn; [done | auto with quiet |].
  eexists. split; [reflexivity | auto with quiet].
Qed.

Lemma quiet_fireTimer (t : Timer) (w : World) : quiet_step w (fireTimer t w).1.
Proof.
  rewrite fireTimer_eq. split_and!; cbn; [done | auto with quiet |].
  eexists. split; [reflexivity|].
  apply Forall_cons. split; [done | auto with quiet].
Qed.

Lemma quiet_with_clock (c : nat) (w : World) : quiet_step w (with_clock c w).
Proof. apply (quiet_silent _ _ []); cbn; by rewrite ?app_nil_r. Qed.

Lemma quiet_elapse (n : nat) (w : World) : quiet_step w (elapse n w).
Proof.
  apply (elapse_keeps (quiet_step w)); [| |apply quiet_refl].
  - intros t w' Hw'. eapply quiet_trans; [exact Hw' | apply quiet_fireTimer].
  - intros c w' Hw'. eapply quiet_trans; [exact Hw' | apply quiet_with_clock].
Qed.

Lemma quiet_showToolbar (el : nat) (gp : option PositionFn) (w : World) :
  quiet_step w (showToolbar el gp w).1.
Proof.
  rewrite showToolbar_eq. cbn zeta.
  destruct (nullish gp defaultGetPosition _) as [pos|err]; cbn [fst].
  - split_and!; cbn; [done | auto with quiet |].
    eexists. split; [reflexivity | auto with quiet].
  - apply (quiet_silent _ _ []); cbn; by rewrite ?app_nil_r.
Qed.

Lemma quiet_scheduleHide (delay : Z) (w : World) : quiet_step w (scheduleHide delay w).1.
Proof.
  rewrite scheduleHide_eq. apply (quiet_silent _ _ []); cbn; by rewrite ?app_nil_r.
Qed.

Lemma quiet_cancelScheduledHide (w : World) : quiet_step w (cancelScheduledHide w).1.
Proof.
  unfold cancelScheduledHide. rewrite clearHideTimeout_eq.
  apply (quiet_silent _ _ []); cbn; by rewrite ?app_nil_r.
Qed.

Lemma quiet_applyFormat (f : FormatterFunction) (oc : option nat) (w : World) :
  quiet_step w (applyFormat f oc w).1.
Proof.
  rewrite applyFormat_eq.
  destruct (activeElement _) as [el|]; cbn zeta.
  - destruct (applyFormattingOnSelection _ _) as [v|err]; cbn [fst];
      [|apply quiet_refl].
    eapply quiet_silent; cbn; [done..|].
    destruct (js_or oc _); repeat constructor.
  - eapply quiet_silent; cbn; [done..|]. repeat constructor.
Qed.

(** The calls that change the subscriber set. *)
Lemma exec_quiet (op : Op) (w : World) :
  match op with
  | Subscribe c =>
      subscribers (manager (exec op w)) = Set_add c (subscribers (manager w))
      ∧ state (manager (exec op w)) = state (manager w)
      ∧ trace (exec op w) = trace w
  | CallUnsubscribe (UnsubscribeOf c) =>
      subscribers (manager (exec op w)) = Set_delete c (subscribers (manager w))
      ∧ state (manager (exec op w)) = state (manager w)
      ∧ trace (exec op w) = trace w
  | _ => quiet_step w (exec op w)
  end.
Proof.
  destruct op as [el gp| |delay| |f oc|c|[c]| |n|el e]; cbn [exec].
  - apply quiet_showToolbar.
  - apply quiet_hideToolbar.
  - apply quiet_scheduleHide.
  - apply quiet_cancelScheduledHide.
  - apply quiet_applyFormat.
  - done.
  - done.
  - apply quiet_refl.
  - apply quiet_elapse.
  - apply (quiet_silent _ _ []); cbn; by rewrite ?app_nil_r.
Qed.

Lemma published_quiet (subs : list nat) (suffix : list Effect) :
  Forall (notif_ok subs) suffix → Forall hidden_or_shown (published suffix).
Proof.
  induction 1 as [|e suffix He _ IH]; [constructor|].
  destruct e; cbn; try exact IH. constructor; [apply He | exact IH].
Qed.

Lemma callsTo_quiet (c : nat) (subs : list nat) (suffix : list Effect) :
  c ∉ subs → Forall (notif_ok subs) suffix → callsTo c suffix = [].
Proof.
  intros Hc. induction 1 as [|e suffix He _ IH]; [reflexivity|].
  destruct e as [|c' s| | | | |]; cbn; try exact IH.
  case_decide; [|exact IH]. subst. destruct He as [He _]. done.
Qed.

Lemma hidden_or_shown_visible (s : ToolbarState) :
  hidden_or_shown s → visible_iff_present s.
Proof.
  unfold visible_iff_present. intros [->|(e & p & ->)]; cbn; [|done].
  split; [done | by intros [? _]].
Qed.

(** The invariant behind the visibility property. *)
Lemma exec_hidden_or_shown (op : Op) (w : World) :
  hidden_or_shown (state (manager w)) ∧ Forall hidden_or_shown (published (trace w)) →
  hidden_or_shown (state (manager (exec op w)))
  ∧ Forall hidden_or_shown (published (trace (exec op w))).
Proof.
  intros [Hs Ht]. pose proof (exec_quiet op w) as Hq.
  assert (quiet_step w (exec op w) →
          hidden_or_shown (state (manager (exec op w)))
          ∧ Forall hidden_or_shown (published (trace (exec op w)))) as Hquiet.
  { intros (_ & Hi & suffix & -> & Hok). split; [auto|].
    unfold published. rewrite omap_app. apply Forall_app. split; [done|].
    by eapply published_quiet. }
  destruct op as [| | | | |c|[c]| | |]; try (by apply Hquiet);
    destruct Hq as (_ & -> & ->); done.
Qed.

(** * The properties of the specification *)

(** ** The selection formatter *)

(** C2. With the missing offsets read as [0]: when [selectionEnd >
    selectionStart] the result is the range [[0, selectionStart)] of the value,
    then the formatter applied to the range [[selectionStart, selectionEnd)],
    then the range [[selectionEnd, end)], the first and the last unchanged;
    otherwise it is the formatter applied to the whole value.  For
    "hello world" and the uppercase formatter, the selection [0, 5) gives
    "HELLO world" and the caret at [3] gives "HELLO WORLD". *)
Theorem applyFormattingOnSelection_spec (element : Element) (formatter : FormatterFunction) :
  let currentValue := nullish (value element) EmptyString in
  let selStart := nullish (selectionStart element) 0 in
  let selEnd := nullish (selectionEnd element) 0 in
  (selEnd > selStart →
   applyFormattingOnSelection element formatter
   = match formatter (slice currentValue selStart selEnd) with
     | Normal formatted =>
         Normal (slice currentValue 0 selStart +:+ formatted
                   +:+ slice currentValue selEnd (strlen currentValue))
     | Throw e => Throw e
     end)
  ∧ (¬ selEnd > selStart →
     applyFormattingOnSelection element formatter = formatter currentValue)
  ∧ applyFormattingOnSelection (textInput "hello world" (Some 0) (Some 5)) uppercaseFormatter
    = Normal "HELLO world"%string
  ∧ applyFormattingOnSelection (textInput "hello world" (Some 3) (Some 3)) uppercaseFormatter
    = Normal "HELLO WORLD"%string
  ∧ applyFormattingOnSelection (textInput "hello world" None None) uppercaseFormatter
    = Normal "HELLO WORLD"%string.
Proof.
  cbn zeta. split_and!; try reflexivity.
  - intros H. unfold applyFormattingOnSelection.
    destruct (Z.ltb_spec (nullish (selectionStart element) 0)
                (nullish (selectionEnd element) 0)); [|lia].
    by rewrite slice_prefix, slice_suffix, slice_js_substring by lia.
  - intros H. unfold applyFormattingOnSelection.
    destruct (Z.ltb_spec (nullish (selectionStart element) 0)
                (nullish (selectionEnd element) 0)); [lia | reflexivity].
Qed.

Lemma applyFormattingOnSelection_spec_witness :
  nullish (selectionEnd inputA) 0 > nullish (selectionStart inputA) 0
  ∧ applyFormattingOnSelection inputA uppercaseFormatter = Normal "HELLO world"%string
  ∧ ¬ nullish (selectionEnd inputB) 0 > nullish (selectionStart inputB) 0
  ∧ applyFormattingOnSelection inputB uppercaseFormatter = Normal "SECOND"%string.
Proof.
  pose proof (applyFormattingOnSelection_spec inputA uppercaseFormatter) as (HA & _).
  pose proof (applyFormattingOnSelection_spec inputB uppercaseFormatter) as (_ & HB & _).
  split_and!.
  - cbn. lia.
  - rewrite HA by (cbn; lia). reflexivity.
  - cbn. lia.
  - rewrite HB by (cbn; lia). reflexivity.
Defined.

(** C10. The routine is total over all offsets.  With inverted offsets
    ([selectionStart > selectionEnd]) the formatter is applied to the whole
    value.  With [selectionEnd > selectionStart] the two offsets are clamped
    to the length of the value, whatever they are: the three pieces cut there
    make up the value, and the result is the first piece, the formatter
    applied to the second, and the third.  When the formatter returns on every
    text, so does the routine. *)
Theorem applyFormattingOnSelection_total (element : Element) (formatter : FormatterFunction) :
  let v := nullish (value element) EmptyString in
  let selStart := nullish (selectionStart element) 0 in
  let selEnd := nullish (selectionEnd element) 0 in
  let a := Z.to_nat (clamp 0 (strlen v) selStart) in
  let b := Z.to_nat (clamp 0 (strlen v) selEnd) in
  let before := String.substring 0 a v in
  let selected := String.substring a (b - a) v in
  let after := String.substring b (String.length v - b) v in
  (selStart > selEnd → applyFormattingOnSelection element formatter = formatter v)
  ∧ (selEnd > selStart →
     (a ≤ b ≤ String.length v)%nat
     ∧ before +:+ selected +:+ after = v
     ∧ applyFormattingOnSelection element formatter
       = match formatter selected with
         | Normal formatted => Normal (before +:+ formatted +:+ after)
         | Throw e => Throw e
         end)
  ∧ ((∀ text, ∃ r, formatter text = Normal r) →
     ∃ r, applyFormattingOnSelection element formatter = Normal r).
Proof.
  cbn zeta.
  set (v := nullish (value element) EmptyString).
  set (s := nullish (selectionStart element) 0).
  set (e := nullish (selectionEnd element) 0).
  assert (0 ≤ strlen v) as Hlen by (unfold strlen; lia).
  pose proof (clamp_bounds 0 (strlen v) s Hlen) as Hs.
  pose proof (clamp_bounds 0 (strlen v) e Hlen) as He.
  split_and!.
  - intros H. unfold applyFormattingOnSelection. fold v s e.
    destruct (Z.ltb_spec s e); [lia | reflexivity].
  - intros H.
    pose proof (clamp_mono 0 (strlen v) s e ltac:(lia)) as Hmono.
    assert (Z.to_nat (clamp 0 (strlen v) s) ≤ Z.to_nat (clamp 0 (strlen v) e)
            ≤ String.length v)%nat as Hab by (unfold strlen in *; lia).
    split_and!; [lia | lia | by apply substring_partition |].
    unfold applyFormattingOnSelection. fold v s e.
    destruct (Z.ltb_spec s e); [|lia].
    by rewrite js_substring_prefix, js_substring_suffix, js_substring_ordered by lia.
  - intros Hf. unfold applyFormattingOnSelection. fold v s e.
    destruct (s <? e); [|apply Hf].
    destruct (Hf (js_substring v s (Some e))) as [r ->]. eauto.
Qed.

Lemma applyFormattingOnSelection_total_witness :
  applyFormattingOnSelection (textInput "hello" (Some 4) (Some 1)) uppercaseFormatter
  = Normal "HELLO"%string
  ∧ applyFormattingOnSelection (textInput "hello" (Some 3) (Some 99)) uppercaseFormatter
    = Normal "helLO"%string
  ∧ applyFormattingOnSelection (textInput "hello" (Some 7) (Some 9)) uppercaseFormatter
    = Normal "hello"%string
  ∧ ∃ r, applyFormattingOnSelection (textInput "hello" (Some (-2)) (Some 2)) uppercaseFormatter
         = Normal r.
Proof.
  split_and!.
  - pose proof (applyFormattingOnSelection_total
                  (textInput "hello" (Some 4) (Some 1)) uppercaseFormatter) as (H & _).
    rewrite H by (cbn; lia). reflexivity.
  - pose proof (applyFormattingOnSelection_total
                  (textInput "hello" (Some 3) (Some 99)) uppercaseFormatter) as (_ & H & _).
    destruct H as (_ & _ & ->); [cbn; lia | reflexivity].
  - pose proof (applyFormattingOnSelection_total
                  (textInput "hello" (Some 7) (Some 9)) uppercaseFormatter) as (_ & H & _).
    destruct H as (_ & _ & ->); [cbn; lia | reflexivity].
  - apply applyFormattingOnSelection_total. intros text. by eexists.
Defined.

(** ** applyFormat *)

(** C4. Without an active element [applyFormat] logs the warning and does
    nothing else: it returns normally, and the world it leaves is the world
    it found with the warning added to the trace, so no value is written, no
    event or handler fires, and the manager is unchanged.  This is the case of
    a fresh coordinator. *)
Theorem applyFormat_without_active_element (w : World)
    (formatter : FormatterFunction) (onChange : option nat) :
  activeElement (state (manager w)) = None →
  applyFormat formatter onChange w
  = (with_trace (trace w ++ [ConsoleWarn "No active element found for formatting"]) w,
     Normal tt).
Proof. intros H. by rewrite applyFormat_eq, H. Qed.

Lemma applyFormat_without_active_element_witness :
  activeElement (state (manager (initialWorld page))) = None
  ∧ applyFormat (λ _, Throw "formatter called") (Some 7%nat) (initialWorld page)
    = ({| manager := initialManager; dom := page; timers := []; clock := 0;
          nextTimer := 1;
          trace := [ConsoleWarn "No active element found for formatting"] |},
       Normal tt).
Proof.
  split; [reflexivity|].
  by rewrite applyFormat_without_active_element.
Defined.

Lemma no_notify_elem (suffix : list Effect) :
  Forall (λ e, match e with Notify _ _ => False | _ => True end) suffix →
  ∀ c s, Notify c s ∉ suffix.
Proof.
  intros H c s Hin. rewrite Forall_forall in H. exact (H _ Hin).
Qed.

(** ** The visibility invariant *)

(** C1. In every state reached from the initial one by calls of the
    manager, timers firing and edits of the page, [isVisible] is true exactly
    when [activeElement] and [position] are both present; and so it is in
    every snapshot that was handed to a subscriber. *)
Theorem visibility_invariant (w : World) :
  Reachable w →
  visible_iff_present (state (manager w))
  ∧ Forall visible_iff_present (published (trace w)).
Proof.
  intros Hw.
  assert (hidden_or_shown (state (manager w))
          ∧ Forall hidden_or_shown (published (trace w))) as [Hs Ht].
  { revert w Hw. apply Reachable_ind'.
    - intros d. split; [apply hidden_ok | constructor].
    - intros op w _. apply exec_hidden_or_shown. }
  split; [by apply hidden_or_shown_visible|].
  eapply Forall_impl; [exact Ht | apply hidden_or_shown_visible].
Qed.

Lemma visibility_invariant_witness :
  let w := run [Subscribe 3%nat; ShowToolbar 1%nat None; ScheduleHide 500;
                Elapse 500] (initialWorld page) in
  Reachable w
  ∧ published (trace w)
    = [ {| activeElement := Some 1%nat; isVisible := true;
           position := Some {| x := 10; y := 25 |} |}; initialState ]
  ∧ visible_iff_present (state (manager w))
  ∧ Forall visible_iff_present (published (trace w)).
Proof.
  cbn zeta.
  assert (Reachable (run [Subscribe 3%nat; ShowToolbar 1%nat None; ScheduleHide 500;
                          Elapse 500] (initialWorld page))) as Hr
    by (by exists page, [Subscribe 3%nat; ShowToolbar 1%nat None; ScheduleHide 500;
                         Elapse 500]).
  split_and!; [exact Hr | vm_compute; reflexivity | apply visibility_invariant, Hr
              | apply visibility_invariant, Hr].
Defined.

(** ** Subscriptions *)

Lemma elem_of_Set_add (c c' : nat) (l : list nat) :
  c ∈ Set_add c' l ↔ c = c' ∨ c ∈ l.
Proof.
  unfold Set_add. case_decide as Hin.
  - split; [auto|]. intros [->|?]; done.
  - rewrite elem_of_app, list_elem_of_singleton. tauto.
Qed.

Lemma Set_add_again (c : nat) (l : list nat) : Set_add c (Set_add c l) = Set_add c l.
Proof.
  unfold Set_add at 1. rewrite decide_True; [done|]. apply elem_of_Set_add. by left.
Qed.

Lemma not_elem_of_Set_delete (c : nat) (l : list nat) : c ∉ Set_delete c l.
Proof. unfold Set_delete. rewrite list_elem_of_filter. by intros [? _]. Qed.

Lemma elem_of_Set_delete (c c' : nat) (l : list nat) :
  c ∈ Set_delete c' l → c ∈ l.
Proof. unfold Set_delete. rewrite list_elem_of_filter. by intros [_ ?]. Qed.

Lemma subscribe_eq (c : nat) (w : World) :
  subscribe c w
  = (with_manager (with_subscribers (Set_add c (subscribers (manager w))) (manager w)) w,
     Normal (UnsubscribeOf c)).
Proof. reflexivity. Qed.

(** A callback outside the set stays outside, and is not called, as long as
    it is not subscribed again. *)
Lemma exec_unsubscribed (c : nat) (op : Op) (w : World) :
  c ∉ subscribers (manager w) → ¬ subscribes c op →
  (c ∉ subscribers (manager (exec op w)))
  ∧ callsTo c (trace (exec op w)) = callsTo c (trace w).
Proof.
  intros Hc Hop. pose proof (exec_quiet op w) as Hq.
  assert (quiet_step w (exec op w) →
          (c ∉ subscribers (manager (exec op w)))
          ∧ callsTo c (trace (exec op w)) = callsTo c (trace w)) as Hquiet.
  { intros (Hs & _ & suffix & -> & Hok). split; [by rewrite Hs|].
    unfold callsTo at 1. rewrite omap_app. fold (callsTo c (trace w)).
    fold (callsTo c suffix). rewrite (callsTo_quiet c _ suffix Hc Hok).
    by rewrite app_nil_r. }
  destruct op as [| | | | |c'|[c']| | |]; try (by apply Hquiet).
  - destruct Hq as (-> & _ & ->). split; [|done].
    rewrite elem_of_Set_add. cbn in Hop. intros [->|?]; done.
  - destruct Hq as (-> & _ & ->). split; [|done].
    intros ?%elem_of_Set_delete. done.
Qed.

Lemma run_unsubscribed (c : nat) (ops : list Op) (w : World) :
  c ∉ subscribers (manager w) → Forall (λ op, ¬ subscribes c op) ops →
  (c ∉ subscribers (manager (run ops w)))
  ∧ callsTo c (trace (run ops w)) = callsTo c (trace w).
Proof.
  intros Hc Hops. revert w Hc.
  induction Hops as [|op ops Hop _ IH]; intros w Hc; [done|].
  destruct (exec_unsubscribed c op w Hc Hop) as [Hc' Ht].
  destruct (IH (exec op w) Hc') as [? ?].
  change (run (op :: ops) w) with (run ops (exec op w)). split; congruence.
Qed.

(** C3, as the code has it.  The subscribers are a set of functions:
    subscribing [c] a second time changes nothing, and the closure returned by
    either call removes [c]; from then on [c] is not in the set and is not
    called, whatever happens, until it is subscribed again. *)
Theorem subscribe_twice_is_one_registration (w : World) (c : nat) :
  let w1 := exec (Subscribe c) w in
  let w2 := exec (Subscribe c) w1 in
  subscribers (manager w2) = subscribers (manager w1)
  ∧ ∀ u, (subscribe c w).2 = Normal u ∨ (subscribe c w1).2 = Normal u →
      let w3 := exec (CallUnsubscribe u) w2 in
      (c ∉ subscribers (manager w3))
      ∧ ∀ ops, Forall (λ op, ¬ subscribes c op) ops →
          (c ∉ subscribers (manager (run ops w3)))
          ∧ callsTo c (trace (run ops w3)) = callsTo c (trace w3).
Proof.
  cbn zeta. split; [apply Set_add_again|].
  intros u Hu.
  assert (u = UnsubscribeOf c) as ->
    by (destruct Hu as [Hu|Hu]; rewrite subscribe_eq in Hu; cbn in Hu; congruence).
  assert (c ∉ subscribers (manager (exec (CallUnsubscribe (UnsubscribeOf c))
                                      (exec (Subscribe c) (exec (Subscribe c) w))))) as Hc
    by apply not_elem_of_Set_delete.
  split; [exact Hc|]. intros ops Hops. by apply run_unsubscribed.
Qed.

Lemma subscribe_twice_is_one_registration_witness :
  let w2 := exec (Subscribe 3%nat) (exec (Subscribe 3%nat) (initialWorld page)) in
  let w3 := exec (CallUnsubscribe (UnsubscribeOf 3%nat)) w2 in
  subscribers (manager w2) = [3%nat]
  ∧ callsTo 3%nat (trace (run [ShowToolbar 1%nat None; HideToolbar] w3)) = [].
Proof.
  cbn zeta. split; [reflexivity|].
  destruct (subscribe_twice_is_one_registration (initialWorld page) 3%nat) as [_ H].
  destruct (H (UnsubscribeOf 3%nat) (or_introl eq_refl)) as [_ H'].
  destruct (H' [ShowToolbar 1%nat None; HideToolbar]) as [_ ->]; [|reflexivity].
  repeat constructor; cbn; tauto.
Defined.

(** C3, as stated: after two subscriptions of [c] and one call of an
    unsubscribe closure, the next transition would still call [c].  It does
    not. *)
Lemma registrations_independent_counterexample :
  ¬ registrations_independent 3%nat (initialWorld page).
Proof. unfold registrations_independent. vm_compute. discriminate. Qed.

(** ** Timers and the trace *)

Lemma fired_app (t1 t2 : list Effect) : fired (t1 ++ t2) = fired t1 ++ fired t2.
Proof. apply omap_app. Qed.

Lemma fired_notifyAll (s : ToolbarState) (subs : list nat) : fired (notifyAll s subs) = [].
Proof. induction subs as [|c subs IH]; [reflexivity | exact IH]. Qed.

(** [scheduleHide] on a manager that holds at most one timer: the new timer
    is the only one pending. *)
Lemma scheduleHide_single (delay : Z) (w : World) :
  single_slot w →
  (scheduleHide delay w).1
  = {| manager := with_hideTimeout (Some (nextTimer w)) (manager w);
       dom := dom w;
       timers := [{| timerId := nextTimer w; due := (clock w + timerDelay delay)%nat |}];
       clock := clock w; nextTimer := Pos.succ (nextTimer w); trace := trace w |}.
Proof.
  intros Hw. rewrite scheduleHide_eq. cbn [fst]. by rewrite (cleared_single_slot w Hw).
Qed.

(** What [showToolbar] leaves alone, whether [getPosition] returns or throws. *)
Lemma showToolbar_frame (el : nat) (gp : option PositionFn) (w : World) :
  let w' := (showToolbar el gp w).1 in
  dom w' = dom w ∧ clock w' = clock w ∧ nextTimer w' = nextTimer w
  ∧ timers w' = cleared w ∧ hideTimeout (manager w') = None
  ∧ fired (trace w') = fired (trace w).
Proof.
  cbn zeta. rewrite showToolbar_eq. cbn zeta.
  destruct (nullish gp defaultGetPosition _); cbn; split_and!; try done.
  by rewrite fired_app, fired_notifyAll, app_nil_r.
Qed.

(** * Further properties of the code *)

(** ** Subscriptions *)

Lemma filter_all_ne (c : nat) (l : list nat) :
  c ∉ l → filter (λ c', c' ≠ c) l = l.
Proof.
  induction l as [|a l IH]; [done|]. intros Hc.
  apply not_elem_of_cons in Hc as [Hne Hc].
  rewrite filter_cons, decide_True by done. by rewrite IH.
Qed.

Lemma Set_delete_add_fresh (c : nat) (l : list nat) :
  c ∉ l → Set_delete c (Set_add c l) = l.
Proof.
  intros Hc. unfold Set_add, Set_delete. rewrite decide_False by done.
  rewrite filter_app, filter_all_ne by done.
  cbn. rewrite decide_False by tauto. apply app_nil_r.
Qed.

Lemma Set_add_member (c : nat) (l : list nat) : c ∈ l → Set_add c l = l.
Proof. intros Hc. unfold Set_add. by rewrite decide_True. Qed.

Lemma with_subscribers_same (w : World) :
  with_manager (with_subscribers (subscribers (manager w)) (manager w)) w = w.
Proof. by destruct w as [[] ?]. Qed.

(** X1. [subscribe] followed by the closure it returned: for a callback that
    was not subscribed the world is back as it was; for one that was, the
    [subscribe] changed nothing and the closure removes the callback. *)
Theorem subscribe_unsubscribe_round_trip (w : World) (c : nat) (u : Unsubscribe) :
  (subscribe c w).2 = Normal u →
  let w1 := (subscribe c w).1 in
  let w2 := (callUnsubscribe u w1).1 in
  (c ∉ subscribers (manager w) → w2 = w)
  ∧ (c ∈ subscribers (manager w) →
     w1 = w
     ∧ subscribers (manager w2) = Set_delete c (subscribers (manager w))
     ∧ c ∉ subscribers (manager w2)).
Proof.
  rewrite subscribe_eq. cbn [fst snd]. intros [= <-]. cbn zeta. split; intros Hc.
  - cbv [callUnsubscribe this_set modify fst]. cbn [manager with_manager subscribers
      with_subscribers]. rewrite Set_delete_add_fresh by done.
    by destruct w as [[] ?].
  - rewrite Set_add_member by done. rewrite with_subscribers_same.
    split_and!; [done | done | apply not_elem_of_Set_delete].
Qed.

Lemma subscribe_unsubscribe_round_trip_witness :
  let w := exec (Subscribe 3%nat) (initialWorld page) in
  (callUnsubscribe (UnsubscribeOf 4%nat) (subscribe 4%nat w).1).1 = w
  ∧ subscribers (manager (callUnsubscribe (UnsubscribeOf 3%nat) (subscribe 3%nat w).1).1)
    = [].
Proof.
  cbn zeta. set (w := exec (Subscribe 3%nat) (initialWorld page)). split.
  - apply (subscribe_unsubscribe_round_trip w 4%nat (UnsubscribeOf 4%nat) eq_refl).
    vm_compute. by intros ?%list_elem_of_singleton.
  - destruct (subscribe_unsubscribe_round_trip w 3%nat (UnsubscribeOf 3%nat) eq_refl)
      as [_ H].
    destruct H as (_ & -> & _); [vm_compute; apply list_elem_of_singleton; done|].
    reflexivity.
Defined.

Lemma NoDup_Set_add (c : nat) (l : list nat) : NoDup l → NoDup (Set_add c l).
Proof.
  intros Hl. unfold Set_add. case_decide as Hc; [done|].
  apply NoDup_app. split_and!; [done| |apply NoDup_singleton].
  intros a Ha ->%list_elem_of_singleton. done.
Qed.

Lemma exec_NoDup (op : Op) (w : World) :
  NoDup (subscribers (manager w)) → NoDup (subscribers (manager (exec op w))).
Proof.
  intros Hw. pose proof (exec_quiet op w) as Hq.
  destruct op as [| | | | |c|[c]| | |]; try (destruct Hq as [-> _]; exact Hw).
  - destruct Hq as [-> _]. by apply NoDup_Set_add.
  - destruct Hq as [-> _]. by apply NoDup_filter.
Qed.

Lemma Reachable_NoDup (w : World) : Reachable w → NoDup (subscribers (manager w)).
Proof.
  revert w. apply (Reachable_ind' (λ w, NoDup (subscribers (manager w))));
    [intros d; constructor|].
  intros op w' _. apply exec_NoDup.
Qed.

Lemma callsTo_app (c : nat) (t1 t2 : list Effect) :
  callsTo c (t1 ++ t2) = callsTo c t1 ++ callsTo c t2.
Proof. apply omap_app. Qed.

Lemma callsTo_notifyAll_cons (c a : nat) (s : ToolbarState) (subs : list nat) :
  callsTo c (notifyAll s (a :: subs))
  = (if decide (a = c) then [s] else []) ++ callsTo c (notifyAll s subs).
Proof. unfold callsTo, notifyAll. cbn. by case_decide. Qed.

Lemma callsTo_notifyAll_absent (c : nat) (s : ToolbarState) (subs : list nat) :
  c ∉ subs → callsTo c (notifyAll s subs) = [].
Proof.
  induction subs as [|a subs IH]; [done|]. intros Hc.
  apply not_elem_of_cons in Hc as [Hne Hc].
  rewrite callsTo_notifyAll_cons, decide_False by done. by apply IH.
Qed.


(** ** The last snapshot of a subscriber *)

Lemma latest_nil (c : nat) (s : ToolbarState) : latest c s [] = s.
Proof. reflexivity. Qed.

Lemma latest_app (c : nat) (s : ToolbarState) (t1 t2 : list Effect) :
  latest c s (t1 ++ t2) = latest c (latest c s t1) t2.
Proof.
  unfold latest. rewrite callsTo_app, last_app. by destruct (last (callsTo c t2)).
Qed.

Lemma latest_notifyAll (c : nat) (s0 s : ToolbarState) (subs : list nat) :
  c ∈ subs → latest c s0 (notifyAll s subs) = s.
Proof.
  unfold latest. induction subs as [|a subs IH]; intros Hc; [by apply elem_of_nil in Hc|].
  rewrite callsTo_notifyAll_cons.
  destruct (decide (c ∈ subs)) as [Hin|Hout].
  - specialize (IH Hin). rewrite last_app.
    destruct (last (callsTo c (notifyAll s subs))); [done|].
    by case_decide.
  - rewrite (callsTo_notifyAll_absent c s subs Hout), app_nil_r.
    apply elem_of_cons in Hc as [->|Hc]; [|done]. by rewrite decide_True.
Qed.

Lemma latest_silent (c : nat) (s : ToolbarState) (t : list Effect) :
  Forall (λ e, match e with Notify _ _ => False | _ => True end) t →
  latest c s t = s.
Proof.
  intros Ht. unfold latest.
  assert (callsTo c t = []) as ->; [|done].
  induction Ht as [|e t He _ IH]; [done|]. by destruct e.
Qed.

(** ** showToolbar when getPosition throws *)

(** X4. When [getPosition] throws, [showToolbar] passes the exception on
    with the state unchanged and no subscriber called, but it has already
    cancelled the pending hide and replaced the stored change handler: the
    element shown before stays active with no timer pending, and
    [applyFormat] calls the handler of the element that was not shown. *)
Theorem showToolbar_throwing_getPosition (w : World) (element : nat)
    (gp : option PositionFn) (err : string) :
  Reachable w →
  nullish gp defaultGetPosition (dom w !!! element) = Throw err →
  let w' := (showToolbar element gp w).1 in
  (showToolbar element gp w).2 = Throw err
  ∧ state (manager w') = state (manager w)
  ∧ trace w' = trace w
  ∧ dom w' = dom w
  ∧ timers w' = [] ∧ hideTimeout (manager w') = None
  ∧ (∀ n, state (manager (elapse n w')) = state (manager w))
  ∧ activeElementOnChange (manager w') = capturedOnChange (dom w !!! element)
  ∧ ∀ (active : nat) (formatter : FormatterFunction) (newValue : string),
      activeElement (state (manager w)) = Some active →
      applyFormattingOnSelection (dom w !!! active) formatter = Normal newValue →
      trace (applyFormat formatter None w').1
      = trace w
        ++ [ValueWritten active newValue; DispatchEvent active "input" true]
        ++ match capturedOnChange (dom w !!! element) with
           | Some h => [ChangeCalled h active active]
           | None => []
           end
        ++ [Focus active].
Proof.
  intros Hw%Reachable_single_slot Hgp. cbn zeta.
  rewrite showToolbar_eq. cbn zeta. rewrite Hgp. cbn [fst snd].
  rewrite (cleared_single_slot w Hw).
  split_and!; try done.
  - intros n. by rewrite elapse_idle.
  - intros active f v Hactive Hv. rewrite applyFormat_eq. cbn [manager state
      with_activeElementOnChange with_hideTimeout dom]. rewrite Hactive. cbn zeta.
    rewrite Hv. reflexivity.
Qed.

Lemma showToolbar_throwing_getPosition_witness :
  let w := run [ShowToolbar 1%nat None; ScheduleHide 500] (initialWorld page) in
  let failing : option PositionFn := Some (λ _, Throw "no layout"%string) in
  let w' := (showToolbar 2%nat failing w).1 in
  Reachable w
  ∧ activeElement (state (manager w')) = Some 1%nat
  ∧ timers w = [{| timerId := 1; due := 500 |}] ∧ timers w' = []
  ∧ activeElementOnChange (manager w) = Some 7%nat
  ∧ trace (applyFormat uppercaseFormatter None w').1
    = trace w ++ [ValueWritten 1%nat "HELLO world"; DispatchEvent 1%nat "input" true;
                  Focus 1%nat].
Proof.
  cbn zeta.
  set (w := run [ShowToolbar 1%nat None; ScheduleHide 500] (initialWorld page)).
  assert (Reachable w) as Hr
    by (by exists page, [ShowToolbar 1%nat None; ScheduleHide 500]).
  pose proof (showToolbar_throwing_getPosition w 2%nat
                (Some (λ _, Throw "no layout"%string)) "no layout"%string Hr eq_refl)
    as H.
  cbn zeta in H. destruct H as (_ & Hs & _ & _ & Ht & _ & _ & _ & Hf).
  split_and!; [exact Hr | rewrite Hs; reflexivity | reflexivity | exact Ht
              | reflexivity |].
  apply (Hf 1%nat uppercaseFormatter "HELLO world"%string); reflexivity.
Defined.

(** ** What the coordinator writes to the page *)

Lemma fireTimer_dom (t : Timer) (w : World) : dom (fireTimer t w).1 = dom w.
Proof. by rewrite fireTimer_eq. Qed.

Lemma elapse_dom (n : nat) (w : World) : dom (elapse n w) = dom w.
Proof.
  apply (elapse_keeps (λ w', dom w' = dom w)); [| |done].
  - intros t w' Hw'. by rewrite fireTimer_dom.
  - intros c w' Hw'. exact Hw'.
Qed.

(** X5. Only [applyFormat] writes to the page, and only to the active
    element: every other call of the manager, and the timer, leave every
    element as it was, and [applyFormat] leaves every element other than the
    active one as it was. *)
Theorem only_applyFormat_writes (op : Op) (w : World) :
  (¬ writes_dom op → dom (exec op w) = dom w)
  ∧ (∀ (formatter : FormatterFunction) (onChange : option nat) (other : nat),
       op = ApplyFormat formatter onChange →
       activeElement (state (manager w)) ≠ Some other →
       dom (exec op w) !! other = dom w !! other).
Proof.
  split.
  - intros Hop.
    destruct op as [el gp| |delay| |f oc|c|[c]| |n|el e]; cbn [exec]; cbn in Hop;
      try done.
    + rewrite showToolbar_eq. cbn zeta. by destruct (nullish gp defaultGetPosition _).
    + by rewrite hideToolbar_eq.
    + by rewrite scheduleHide_eq.
    + unfold cancelScheduledHide. by rewrite clearHideTimeout_eq.
    + apply elapse_dom.
  - intros f oc other -> Hother. cbn [exec]. rewrite applyFormat_eq.
    destruct (activeElement _) as [el|]; cbn zeta; [|done].
    destruct (applyFormattingOnSelection _ _) as [v|err]; cbn [fst dom]; [|done].
    apply lookup_insert_ne. congruence.
Qed.

Lemma only_applyFormat_writes_witness :
  let w := exec (ShowToolbar 1%nat None) (initialWorld page) in
  dom (exec (Elapse 700) (exec (ScheduleHide 500) w)) = dom w
  ∧ dom (exec (ApplyFormat uppercaseFormatter None) w) !! 2%nat = Some inputB
  ∧ value (dom (exec (ApplyFormat uppercaseFormatter None) w) !!! 1%nat)
    = Some "HELLO world"%string.
Proof.
  cbn zeta. set (w := exec (ShowToolbar 1%nat None) (initialWorld page)).
  split_and!.
  - destruct (only_applyFormat_writes (Elapse 700) (exec (ScheduleHide 500) w))
      as [H1 _].
    destruct (only_applyFormat_writes (ScheduleHide 500) w) as [H2 _].
    rewrite H1, H2 by (cbn; tauto). reflexivity.
  - destruct (only_applyFormat_writes (ApplyFormat uppercaseFormatter None) w)
      as [_ H].
    rewrite (H uppercaseFormatter None 2%nat eq_refl); [reflexivity|].
    vm_compute. discriminate.
  - reflexivity.
Defined.

(** ** The default position *)



(** ** hideToolbar and the pending timer *)

(** X8. [hideToolbar] leaves nothing pending: however long one waits after
    it, no timer fires and no subscriber is called again. *)
Theorem hideToolbar_is_final (w : World) (n : nat) :
  Reachable w →
  let w1 := exec HideToolbar w in
  timers w1 = []
  ∧ state (manager (elapse n w1)) = initialState
  ∧ trace (elapse n w1) = trace w1.
Proof.
  intros Hw%Reachable_single_slot. cbn zeta. cbn [exec]. rewrite hideToolbar_eq.
  cbn [fst timers]. rewrite (cleared_single_slot w Hw).
  split; [done|]. by rewrite elapse_idle.
Qed.

Lemma hideToolbar_is_final_witness :
  let w := run [Subscribe 3%nat; ShowToolbar 1%nat None; ScheduleHide 500]
             (initialWorld page) in
  timers w = [{| timerId := 1; due := 500 |}]
  ∧ published (trace (elapse 1000 (exec HideToolbar w)))
    = [ {| activeElement := Some 1%nat; isVisible := true;
           position := Some {| x := 10; y := 25 |} |}; initialState ].
Proof.
  cbn zeta.
  set (w := run [Subscribe 3%nat; ShowToolbar 1%nat None; ScheduleHide 500]
              (initialWorld page)).
  assert (Reachable w) as Hr
    by (by exists page, [Subscribe 3%nat; ShowToolbar 1%nat None; ScheduleHide 500]).
  split; [reflexivity|].
  destruct (hideToolbar_is_final w 1000 Hr) as (_ & _ & ->). reflexivity.
Defined.

(** ** More on the selection formatter *)

Lemma append_empty_r (s : string) : s +:+ EmptyString = s.
Proof.
  induction s as [|c s IH]; [done|].
  change (String c (s +:+ EmptyString) = String c s). by f_equal.
Qed.

(** The three pieces [applyFormattingOnSelection] cuts, for offsets in
    order, in natural numbers. *)
Lemma applyFormattingOnSelection_pieces (element : Element) (formatter : FormatterFunction) :
  let v := nullish (value element) EmptyString in
  let s := nullish (selectionStart element) 0 in
  let e := nullish (selectionEnd element) 0 in
  let a := Z.to_nat (clamp 0 (strlen v) s) in
  let b := Z.to_nat (clamp 0 (strlen v) e) in
  s < e →
  (a ≤ b ≤ String.length v)%nat
  ∧ applyFormattingOnSelection element formatter
    = match formatter (String.substring a (b - a) v) with
      | Normal formatted =>
          Normal (String.substring 0 a v +:+ formatted
                    +:+ String.substring b (String.length v - b) v)
      | Throw err => Throw err
      end.
Proof.
  cbn zeta. intros Hlt.
  set (v := nullish (value element) EmptyString).
  set (s := nullish (selectionStart element) 0) in *.
  set (e := nullish (selectionEnd element) 0) in *.
  assert (0 ≤ strlen v) as Hlen by (unfold strlen; lia).
  pose proof (clamp_bounds 0 (strlen v) s Hlen).
  pose proof (clamp_bounds 0 (strlen v) e Hlen).
  pose proof (clamp_mono 0 (strlen v) s e ltac:(lia)).
  split; [unfold strlen in *; lia|].
  unfold applyFormattingOnSelection. fold v s e.
  destruct (Z.ltb_spec s e); [|lia].
  by rewrite js_substring_prefix, js_substring_suffix, js_substring_ordered by lia.
Qed.

(** X9. A formatter that returns its text unchanged leaves the value
    unchanged, for every selection, in range or not. *)
Theorem identity_formatter_keeps_value (element : Element) :
  applyFormattingOnSelection element (λ text, Normal text)
  = Normal (nullish (value element) EmptyString).
Proof.
  destruct (Z.ltb_spec (nullish (selectionStart element) 0)
              (nullish (selectionEnd element) 0)) as [Hlt|Hge].
  - destruct (applyFormattingOnSelection_pieces element (λ text, Normal text) Hlt)
      as [Hab ->].
    by rewrite substring_partition.
  - unfold applyFormattingOnSelection.
    destruct (Z.ltb_spec (nullish (selectionStart element) 0)
                (nullish (selectionEnd element) 0)); [lia | done].
Qed.

(** X10. A selection that covers the whole value gives what no selection
    gives: the formatter applied to the whole value. *)
Theorem select_all_is_whole_value (element : Element) (formatter : FormatterFunction) :
  let v := nullish (value element) EmptyString in
  nullish (selectionStart element) 0 ≤ 0 →
  strlen v ≤ nullish (selectionEnd element) 0 →
  applyFormattingOnSelection element formatter = formatter v.
Proof.
  cbn zeta. intros Hs He.
  set (v := nullish (value element) EmptyString) in *.
  assert (0 ≤ strlen v) as Hlen by (unfold strlen; lia).
  destruct (Z.ltb_spec (nullish (selectionStart element) 0)
              (nullish (selectionEnd element) 0)) as [Hlt|Hge].
  - destruct (applyFormattingOnSelection_pieces element formatter Hlt) as [_ ->].
    fold v.
    assert (Z.to_nat (clamp 0 (strlen v) (nullish (selectionStart element) 0)) = 0%nat)
      as -> by (unfold clamp; lia).
    assert (Z.to_nat (clamp 0 (strlen v) (nullish (selectionEnd element) 0))
            = String.length v) as -> by (unfold clamp, strlen in *; lia).
    rewrite Nat.sub_0_r, Nat.sub_diag, substring_whole, !substring_none.
    destruct (formatter v) as [r|err]; [|done]. by rewrite append_empty_r.
  - unfold applyFormattingOnSelection. fold v.
    destruct (Z.ltb_spec (nullish (selectionStart element) 0)
                (nullish (selectionEnd element) 0)); [lia | done].
Qed.

Lemma select_all_is_whole_value_witness :
  applyFormattingOnSelection (textInput "hello world" (Some 0) (Some 11)) uppercaseFormatter
  = Normal "HELLO WORLD"%string
  ∧ applyFormattingOnSelection (textInput "hello world" (Some (-3)) (Some 40))
      uppercaseFormatter
    = Normal "HELLO WORLD"%string.
Proof.
  split.
  - rewrite select_all_is_whole_value; [reflexivity | by vm_compute | by vm_compute].
  - rewrite select_all_is_whole_value; [reflexivity | by vm_compute | by vm_compute].
Defined.

(** X11. On an element whose value is empty or missing the result is the
    formatter applied to the empty string, whatever the selection says. *)
Theorem empty_value_formats_empty (element : Element) (formatter : FormatterFunction) :
  nullish (value element) EmptyString = EmptyString →
  applyFormattingOnSelection element formatter = formatter EmptyString.
Proof.
  intros Hv. unfold applyFormattingOnSelection. rewrite Hv.
  destruct (_ <? _); [|done].
  unfold js_substring. rewrite !substring_of_empty.
  destruct (formatter EmptyString) as [r|err]; [|done]. by rewrite append_empty_r.
Qed.

Lemma empty_value_formats_empty_witness :
  applyFormattingOnSelection
    {| value := None; selectionStart := Some 2; selectionEnd := Some 9;
       props := None; boundingClientRect := {| rect_left := 0; rect_bottom := 0 |} |}
    (λ text, Normal ("**" +:+ text +:+ "**"))
  = Normal "****"%string.
Proof. by rewrite empty_value_formats_empty. Defined.

(** ** The states of a reachable manager *)

Lemma Reachable_hidden_or_shown (w : World) :
  Reachable w →
  hidden_or_shown (state (manager w)) ∧ Forall hidden_or_shown (published (trace w)).
Proof.
  revert w.
  apply (Reachable_ind' (λ w, hidden_or_shown (state (manager w))
                              ∧ Forall hidden_or_shown (published (trace w)))).
  - intros d. split; [apply hidden_ok | constructor].
  - intros op w _. apply exec_hidden_or_shown.
Qed.

(** ** The toolbar component *)

Lemma toolbar_base_style (pos : ToolbarPosition) :
  let base : gmap string CSSValue :=
    {[ "left"%string := CssNumber (x pos); "position"%string := CssKeyword "fixed";
       "top"%string := CssNumber (y pos); "zIndex"%string := CssNumber 1000 ]} in
  base !! "left"%string = Some (CssNumber (x pos))
  ∧ base !! "top"%string = Some (CssNumber (y pos))
  ∧ base !! "position"%string = Some (CssKeyword "fixed")
  ∧ base !! "zIndex"%string = Some (CssNumber 1000).
Proof. cbn zeta. split_and!; by simplify_map_eq. Qed.

Lemma lookup_union_override (custom base : gmap string CSSValue) (key : string) :
  (custom ∪ base) !! key
  = match custom !! key with Some v => Some v | None => base !! key end.
Proof.
  rewrite lookup_union. destruct (custom !! key), (base !! key); reflexivity.
Qed.

(** X14. For the state of a reachable manager, and for every snapshot it
    handed to a subscriber, the toolbar component renders exactly when
    [isVisible] is true; what it renders is placed at the [position] of the
    snapshot, [fixed] and with [zIndex] 1000, unless the caller's [style] sets
    the same key, and carries a mouse-down handler unless the config turns
    [preventCloseOnClick] off. *)
Theorem FormattingToolbar_renders_when_visible {Node : Type}
    (props : FormattingToolbarComponent.FormattingToolbarProps Node)
    (w : World) (s : ToolbarState) :
  Reachable w →
  s = state (manager w) ∨ s ∈ published (trace w) →
  let custom := nullish (FormattingToolbarComponent.style props) ∅ in
  let placed key v := nullish (custom !! key) v in
  (FormattingToolbarComponent.FormattingToolbar props s = None ↔ isVisible s = false)
  ∧ ∀ el, FormattingToolbarComponent.FormattingToolbar props s = Some el →
      ∃ pos, position s = Some pos
        ∧ FormattingToolbarComponent.elementStyle el !! "left"%string
          = Some (placed "left"%string (CssNumber (x pos)))
        ∧ FormattingToolbarComponent.elementStyle el !! "top"%string
          = Some (placed "top"%string (CssNumber (y pos)))
        ∧ FormattingToolbarComponent.elementStyle el !! "position"%string
          = Some (placed "position"%string (CssKeyword "fixed"))
        ∧ FormattingToolbarComponent.elementStyle el !! "zIndex"%string
          = Some (placed "zIndex"%string (CssNumber 1000))
        ∧ (FormattingToolbarComponent.elementOnMouseDown el = None
           ↔ nullish (preventCloseOnClick
                        (nullish (FormattingToolbarComponent.config props) emptyConfig))
               true = false).
Proof.
  intros [Hstate Hpub]%Reachable_hidden_or_shown Hs.
  assert (hidden_or_shown s) as Hshape.
  { destruct Hs as [->|Hin]; [done|]. rewrite Forall_forall in Hpub. by apply Hpub. }
  cbn zeta. unfold FormattingToolbarComponent.FormattingToolbar.
  destruct Hshape as [->|(active & pos & ->)]; cbn [isVisible position initialState].
  - split; [done|]. intros el [=].
  - split; [split; intros [=]|]. intros el [= <-].
    exists pos. cbn [FormattingToolbarComponent.elementStyle
                     FormattingToolbarComponent.elementOnMouseDown].
    destruct (toolbar_base_style pos) as (Hl & Ht & Hp & Hz).
    rewrite !lookup_union_override, Hl, Ht, Hp, Hz.
    set (custom := nullish (FormattingToolbarComponent.style props) ∅).
    split_and!; try done.
    + by destruct (custom !! "left"%string).
    + by destruct (custom !! "top"%string).
    + by destruct (custom !! "position"%string).
    + by destruct (custom !! "zIndex"%string).
    + by destruct (nullish (preventCloseOnClick _) true).
Qed.

Lemma FormattingToolbar_renders_when_visible_witness :
  let props : FormattingToolbarComponent.FormattingToolbarProps nat :=
    {| FormattingToolbarComponent.as_ := None;
       FormattingToolbarComponent.children := λ _, 0%nat;
       FormattingToolbarComponent.className := None;
       FormattingToolbarComponent.config := None;
       FormattingToolbarComponent.style := Some {[ "top"%string := CssNumber 0 ]} |} in
  let w := exec (ShowToolbar 1%nat None) (initialWorld page) in
  (FormattingToolbarComponent.FormattingToolbar props (state (manager (initialWorld page)))
   = None)
  ∧ ∃ el, FormattingToolbarComponent.FormattingToolbar props (state (manager w)) = Some el
          ∧ FormattingToolbarComponent.elementStyle el !! "left"%string
            = Some (CssNumber 10)
          ∧ FormattingToolbarComponent.elementStyle el !! "top"%string
            = Some (CssNumber 0).
Proof.
  cbn zeta.
  set (props := {| FormattingToolbarComponent.as_ := None;
                   FormattingToolbarComponent.children := λ _, 0%nat;
                   FormattingToolbarComponent.className := None;
                   FormattingToolbarComponent.config := None;
                   FormattingToolbarComponent.style :=
                     Some {[ "top"%string := CssNumber 0 ]} |}).
  set (w := exec (ShowToolbar 1%nat None) (initialWorld page)).
  assert (Reachable (initialWorld page)) as Hr0 by (by exists page, []).
  assert (Reachable w) as Hr by (by exists page, [ShowToolbar 1%nat None]).
  split.
  - apply (FormattingToolbar_renders_when_visible props (initialWorld page) _ Hr0);
      [by left | reflexivity].
  - destruct (FormattingToolbarComponent.FormattingToolbar props (state (manager w)))
      as [el|] eqn:Hel; [|by vm_compute in Hel].
    exists el. split; [done|].
    destruct (FormattingToolbar_renders_when_visible props w (state (manager w)) Hr
                (or_introl eq_refl)) as [_ H].
    destruct (H el Hel) as (pos & Hpos & Hl & Ht & _).
    assert (pos = {| x := 10; y := 25 |}) as -> by (vm_compute in Hpos; congruence).
    rewrite Hl, Ht. split; reflexivity.
Defined.

(** ** The wrapper *)



(** ** Formatting through the hooks *)



(** * The manager in its host *)

(** ** The subscribers that are called *)

Lemma called_all_return (sub : nat → World → completion unit) (subs : list nat) :
  all_return sub subs →
  ∀ w, called sub w subs = subs ∧ outcome sub w subs = Normal tt.
Proof.
  induction 1 as [|c subs Hc _ IH]; intros w; [done|].
  cbn [called outcome]. cbn zeta. rewrite Hc.
  by destruct (IH (with_trace (trace w ++ [Notify c (state (manager w))]) w)) as [-> ->].
Qed.

(** The world after the subscribers of [l] were called and returned. *)
Lemma called_app_return (sub : nat → World → completion unit)
    (before rest : list nat) :
  all_return sub before →
  ∀ w, called sub w (before ++ rest)
       = before ++ called sub (with_trace (trace w ++ notifyAll (state (manager w)) before) w)
                     rest
       ∧ outcome sub w (before ++ rest)
         = outcome sub (with_trace (trace w ++ notifyAll (state (manager w)) before) w)
             rest.
Proof.
  induction 1 as [|c before Hc _ IH]; intros w.
  - cbn [app notifyAll map]. rewrite app_nil_r. by destruct w.
  - cbn [app called outcome]. cbn zeta. rewrite Hc.
    destruct (IH (with_trace (trace w ++ [Notify c (state (manager w))]) w)) as [-> ->].
    cbn [trace with_trace manager]. unfold with_trace at 1 3. cbn [manager dom timers clock nextTimer].
    rewrite <- app_assoc. done.
Qed.

(** Once the loop has thrown, nobody else is called. *)
Lemma called_app_throw (sub : nat → World → completion unit)
    (pre post : list nat) (err : string) :
  ∀ w, outcome sub w pre = Throw err →
       called sub w (pre ++ post) = called sub w pre
       ∧ outcome sub w (pre ++ post) = Throw err.
Proof.
  induction pre as [|c pre IH]; intros w Hw; [done|].
  cbn [app called outcome] in *. cbn zeta in *.
  destruct (sub c _) as [[]|err']; [|done].
  by destruct (IH _ Hw) as [-> ->].
Qed.

Lemma called_prefix (sub : nat → World → completion unit) (subs : list nat) :
  ∀ w, called sub w subs `prefix_of` subs.
Proof.
  induction subs as [|c subs IH]; intros w; [done|].
  cbn [called]. cbn zeta. destruct (sub c _).
  - by apply prefix_cons.
  - apply prefix_cons, prefix_nil.
Qed.

(** When the loop returns, every subscriber was called. *)
Lemma called_outcome_normal (sub : nat → World → completion unit) (subs : list nat) :
  ∀ w u, outcome sub w subs = Normal u → called sub w subs = subs.
Proof.
  induction subs as [|c subs IH]; intros w u Hw; [done|].
  cbn [called outcome] in *. cbn zeta in *.
  destruct (sub c _) as [[]|err]; [|done]. by rewrite (IH _ _ Hw).
Qed.

(** When the loop throws, the last subscriber called is the one that threw. *)
Lemma called_outcome_throw (sub : nat → World → completion unit) (subs : list nat)
    (err : string) :
  ∀ w, outcome sub w subs = Throw err →
       ∃ before c after wc,
         subs = before ++ c :: after
         ∧ called sub w subs = before ++ [c]
         ∧ sub c wc = Throw err.
Proof.
  induction subs as [|c subs IH]; intros w Hw; [done|].
  cbn [called outcome] in *. cbn zeta in *.
  destruct (sub c _) as [[]|err'] eqn:Hc.
  - destruct (IH _ Hw) as (before & c' & after & wc & -> & -> & Hc').
    by exists (c :: before), c', after, wc.
  - injection Hw as ->. eexists [], c, subs, _. split_and!; [done..|exact Hc].
Qed.

Lemma heard_called (sub : nat → World → completion unit) (c : nat) (subs : list nat)
    (w : World) :
  heard sub c subs → c ∈ called sub w subs.
Proof.
  intros (before & after & -> & Hb).
  destruct (called_app_return sub before (c :: after) Hb w) as [-> _].
  apply elem_of_app. right. cbn [called]. apply elem_of_cons. by left.
Qed.

Lemma no_notify_handlerCalls (s : ToolbarState) (subs : list nat) :
  handlerCalls (notifyAll s subs) = [].
Proof. induction subs as [|c subs IH]; [reflexivity | exact IH]. Qed.

(** ** Closed forms *)

Lemma callSubscriber_in_eq (sub : nat → World → completion unit) (c : nat) (w : World) :
  InHost.callSubscriber sub c w
  = (with_trace (trace w ++ [Notify c (state (manager w))]) w,
     sub c (with_trace (trace w ++ [Notify c (state (manager w))]) w)).
Proof. reflexivity. Qed.

Lemma forEach_callSubscriber_in (sub : nat → World → completion unit) (l : list nat)
    (w : World) :
  forEach l (InHost.callSubscriber sub) w
  = (with_trace (trace w ++ delivered sub w l) w, outcome sub w l).
Proof.
  revert w. induction l as [|c l IH]; intros w.
  - destruct w. unfold delivered. cbn. rewrite app_nil_r. reflexivity.
  - cbn [forEach]. cbv [mbind M_bind].
    rewrite callSubscriber_in_eq. unfold delivered. cbn [called outcome]. cbn zeta.
    destruct (sub c _) as [[]|err]; [|reflexivity].
    rewrite IH. unfold delivered. cbn. rewrite <- app_assoc. reflexivity.
Qed.

Lemma setState_all_in (sub : nat → World → completion unit) (a : option nat) (v : bool)
    (p : option ToolbarPosition) (w : World) :
  let s := {| activeElement := a; isVisible := v; position := p |} in
  let w' := with_manager (with_state s (manager w)) w in
  InHost.setState sub {| new_activeElement := Some a; new_isVisible := Some v;
                         new_position := Some p |} w
  = (with_trace (trace w ++ delivered sub w' (subscribers (manager w))) w',
     outcome sub w' (subscribers (manager w))).
Proof.
  unfold InHost.setState. run_M. rewrite forEach_callSubscriber_in. reflexivity.
Qed.

Lemma hideToolbar_in_eq (sub : nat → World → completion unit) (w : World) :
  InHost.hideToolbar sub w
  = ({| manager := {| activeElementOnChange := None; hideTimeout := None;
                      state := initialState;
                      subscribers := subscribers (manager w) |};
        dom := dom w; timers := cleared w; clock := clock w;
        nextTimer := nextTimer w;
        trace := trace w
                 ++ notifyAll initialState
                      (called sub (hidden w) (subscribers (manager w))) |},
     outcome sub (hidden w) (subscribers (manager w))).
Proof.
  unfold InHost.hideToolbar.
  cbv [mbind M_bind]. rewrite clearHideTimeout_eq. run_M.
  rewrite setState_all_in. reflexivity.
Qed.

Lemma showToolbar_in_eq (sub : nat → World → completion unit) (element : nat)
    (getPosition : option PositionFn) (w : World) :
  let e := dom w !!! element in
  let m := with_activeElementOnChange (capturedOnChange e)
             (with_hideTimeout None (manager w)) in
  InHost.showToolbar sub element getPosition w
  = match nullish getPosition defaultGetPosition e with
    | Normal pos =>
        let s := {| activeElement := Some element; isVisible := true;
                    position := Some pos |} in
        ({| manager := with_state s m; dom := dom w; timers := cleared w;
            clock := clock w; nextTimer := nextTimer w;
            trace := trace w
                     ++ notifyAll s (called sub (shown w element pos)
                                       (subscribers (manager w))) |},
         outcome sub (shown w element pos) (subscribers (manager w)))
    | Throw err =>
        ({| manager := m; dom := dom w; timers := cleared w; clock := clock w;
            nextTimer := nextTimer w; trace := trace w |},
         Throw err)
    end.
Proof.
  unfold InHost.showToolbar.
  cbv [mbind M_bind]. rewrite clearHideTimeout_eq. run_M.
  cbn [dom with_timers with_manager manager].
  destruct (nullish getPosition defaultGetPosition (dom w !!! element)) as [pos|err];
    [rewrite setState_all_in|]; reflexivity.
Qed.

Lemma applyFormat_in_eq (sub handler : nat → World → completion unit)
    (formatter : FormatterFunction) (onChange : option nat)
    (onFocus : option PositionFn) (w : World) :
  InHost.applyFormat sub handler formatter onChange onFocus w
  = match activeElement (state (manager w)) with
    | None =>
        (with_trace (trace w ++ [ConsoleWarn "No active element found for formatting"]) w,
         Normal tt)
    | Some el =>
        match applyFormattingOnSelection (dom w !!! el) formatter with
        | Normal newValue =>
            let chosen := js_or onChange (activeElementOnChange (manager w)) in
            match handlerOutcome handler chosen (changed w el newValue chosen) with
            | Normal _ =>
                (match onFocus with
                 | Some gp =>
                     (InHost.showToolbar sub el (Some gp)
                        (formatted w el newValue onChange)).1
                 | None => formatted w el newValue onChange
                 end,
                 Normal tt)
            | Throw err => (changed w el newValue chosen, Throw err)
            end
        | Throw err => (w, Throw err)
        end
    end.
Proof.
  unfold InHost.applyFormat. run_M.
  destruct (activeElement (state (manager w))) as [el|]; [|reflexivity].
  destruct (applyFormattingOnSelection (dom w !!! el) formatter) as [v|err];
    [|reflexivity].
  cbn zeta.
  unfold InHost.updateElementValue, InHost.focus, InHost.answer, formatted, changed,
    formatEffects, changeEffects, handlerOutcome.
  run_M.
  destruct (js_or onChange (activeElementOnChange (manager w))) as [h|].
  - cbn. rewrite <- !app_assoc. cbn.
    destruct (handler h _) as [[]|err]; [|reflexivity].
    destruct onFocus; cbn; rewrite <- ?app_assoc; reflexivity.
  - destruct onFocus; cbn; rewrite <- ?app_assoc; reflexivity.
Qed.

Lemma fireTimer_in_eq (sub : nat → World → completion unit) (t : Timer) (w : World) :
  let w1 := with_trace (trace w ++ [TimerFired (timerId t)])
              (with_timers (filter (λ t', timerId t' ≠ timerId t) (timers w)) w) in
  (InHost.fireTimer sub t w).1
  = {| manager := {| activeElementOnChange := None; hideTimeout := None;
                     state := initialState;
                     subscribers := subscribers (manager w) |};
       dom := dom w;
       timers := cleared (with_timers (filter (λ t', timerId t' ≠ timerId t) (timers w)) w);
       clock := clock w; nextTimer := nextTimer w;
       trace := trace w ++ [TimerFired (timerId t)]
                ++ notifyAll initialState
                     (called sub (hidden w1) (subscribers (manager w))) |}.
Proof.
  cbn zeta. unfold InHost.fireTimer. run_M. rewrite hideToolbar_in_eq. cbn.
  rewrite <- app_assoc. reflexivity.
Qed.

Lemma fireTimer_in_one (sub : nat → World → completion unit) (t : Timer) (w : World) :
  timers w = [t] →
  let w1 := with_trace (trace w ++ [TimerFired (timerId t)])
              (with_timers (filter (λ t', timerId t' ≠ timerId t) (timers w)) w) in
  (InHost.fireTimer sub t w).1
  = {| manager := {| activeElementOnChange := None; hideTimeout := None;
                     state := initialState;
                     subscribers := subscribers (manager w) |};
       dom := dom w; timers := []; clock := clock w; nextTimer := nextTimer w;
       trace := trace w ++ [TimerFired (timerId t)]
                ++ notifyAll initialState
                     (called sub (hidden w1) (subscribers (manager w))) |}.
Proof.
  intros Ht. cbn zeta. rewrite fireTimer_in_eq. cbn zeta. f_equal.
  apply cleared_no_timers. cbn. rewrite Ht. destruct t. apply filter_own_timer.
Qed.

(** What a timer that fires leaves, whoever is called. *)
Lemma fireTimer_in_frame (sub : nat → World → completion unit) (t : Timer) (w : World) :
  let w' := (InHost.fireTimer sub t w).1 in
  manager w' = {| activeElementOnChange := None; hideTimeout := None;
                  state := initialState; subscribers := subscribers (manager w) |}
  ∧ dom w' = dom w ∧ clock w' = clock w ∧ nextTimer w' = nextTimer w
  ∧ timers w'
    = cleared (with_timers (filter (λ t', timerId t' ≠ timerId t) (timers w)) w)
  ∧ ∃ who, who `prefix_of` subscribers (manager w)
           ∧ trace w' = trace w ++ [TimerFired (timerId t)] ++ notifyAll initialState who
           ∧ (all_return sub (subscribers (manager w)) → who = subscribers (manager w))
           ∧ ∀ c, heard sub c (subscribers (manager w)) → c ∈ who.
Proof.
  cbn zeta. rewrite fireTimer_in_eq. cbn zeta. split_and!; try done.
  eexists. split_and!; [apply called_prefix | done | |].
  - intros Hall. by destruct (called_all_return sub _ Hall
                                (hidden (with_trace (trace w ++ [TimerFired (timerId t)])
                                   (with_timers (filter (λ t', timerId t' ≠ timerId t)
                                                   (timers w)) w)))) as [-> _].
  - intros c Hc. by apply heard_called.
Qed.

(** ** The event loop *)

Lemma runTimers_in_none (sub : nat → World → completion unit) (w : World) :
  timers w = [] → InHost.runTimers sub w = w.
Proof. unfold InHost.runTimers. by intros ->. Qed.

Lemma runTimers_in_one (sub : nat → World → completion unit) (t : Timer) (w : World) :
  timers w = [t] →
  InHost.runTimers sub w = if isDue (clock w) t then (InHost.fireTimer sub t w).1 else w.
Proof.
  intros Ht. unfold InHost.runTimers. rewrite Ht. cbn [List.length InHost.runDueTimers].
  rewrite Ht. cbn [List.find]. by destruct (isDue (clock w) t).
Qed.

Lemma elapse_in_idle (sub : nat → World → completion unit) (n : nat) (w : World) :
  timers w = [] → InHost.elapse sub n w = with_clock (clock w + n) w.
Proof.
  revert w. induction n as [|n IH]; intros w Ht; cbn [InHost.elapse];
    rewrite runTimers_in_none by done.
  - rewrite Nat.add_0_r. by rewrite with_clock_same.
  - rewrite IH by done. destruct w. unfold with_clock. cbn. f_equal. lia.
Qed.

Lemma elapse_in_early (sub : nat → World → completion unit) (n : nat) (t : Timer)
    (w : World) :
  timers w = [t] → (clock w + n < due t)%nat →
  InHost.elapse sub n w = with_clock (clock w + n) w.
Proof.
  revert w. induction n as [|n IH]; intros w Ht Hlt; cbn [InHost.elapse];
    rewrite (runTimers_in_one sub t) by done; unfold isDue;
    destruct (Nat.leb_spec (due t) (clock w)); try lia.
  - rewrite Nat.add_0_r. by rewrite with_clock_same.
  - rewrite IH; [|done|cbn; lia].
    destruct w. unfold with_clock. cbn. f_equal. lia.
Qed.

(** A timer fires in the world of the millisecond at which it is due. *)
Lemma elapse_in_late (sub : nat → World → completion unit) (n : nat) (t : Timer)
    (w : World) :
  timers w = [t] → (due t ≤ clock w + n)%nat →
  InHost.elapse sub n w
  = with_clock (clock w + n)
      (InHost.fireTimer sub t (with_clock (Nat.max (clock w) (due t)) w)).1.
Proof.
  revert w. induction n as [|n IH]; intros w Ht Hle; cbn [InHost.elapse];
    rewrite (runTimers_in_one sub t) by done; unfold isDue;
    destruct (Nat.leb_spec (due t) (clock w)); try lia.
  - replace (Nat.max (clock w) (due t)) with (clock w) by lia.
    rewrite with_clock_same, Nat.add_0_r. rewrite fireTimer_in_eq. reflexivity.
  - replace (Nat.max (clock w) (due t)) with (clock w) by lia.
    rewrite with_clock_same.
    rewrite elapse_in_idle by (by rewrite fireTimer_in_one).
    rewrite fireTimer_in_one by done. cbn. unfold with_clock. cbn. f_equal. lia.
  - rewrite IH; [|done|cbn; lia]. cbn [with_clock clock].
    replace (Nat.max (S (clock w)) (due t)) with (Nat.max (clock w) (due t)) by lia.
    replace (S (clock w) + n)%nat with (clock w + S n)%nat by lia.
    reflexivity.
Qed.

Lemma runDueTimers_in_keeps (sub : nat → World → completion unit) (P : World → Prop) :
  (∀ t w, P w → P (InHost.fireTimer sub t w).1) →
  ∀ fuel w, P w → P (InHost.runDueTimers sub fuel w).
Proof.
  intros Hfire. induction fuel as [|fuel IH]; intros w Hw; cbn; [done|].
  destruct (List.find _ _); [apply IH, Hfire|]; done.
Qed.

Lemma elapse_in_keeps (sub : nat → World → completion unit) (P : World → Prop) :
  (∀ t w, P w → P (InHost.fireTimer sub t w).1) →
  (∀ c w, P w → P (with_clock c w)) →
  ∀ n w, P w → P (InHost.elapse sub n w).
Proof.
  intros Hfire Hclock. induction n as [|n IH]; intros w Hw; cbn [InHost.elapse].
  - unfold InHost.runTimers. by apply runDueTimers_in_keeps.
  - apply IH, Hclock. unfold InHost.runTimers. by apply runDueTimers_in_keeps.
Qed.

(** ** The single timer slot *)

Lemma showToolbar_in_frame (sub : nat → World → completion unit) (el : nat)
    (gp : option PositionFn) (w : World) :
  let w' := (InHost.showToolbar sub el gp w).1 in
  dom w' = dom w ∧ clock w' = clock w ∧ nextTimer w' = nextTimer w
  ∧ timers w' = cleared w ∧ hideTimeout (manager w') = None
  ∧ subscribers (manager w') = subscribers (manager w)
  ∧ fired (trace w') = fired (trace w).
Proof.
  cbn zeta. rewrite showToolbar_in_eq. cbn zeta.
  destruct (nullish gp defaultGetPosition _); cbn; split_and!; try done.
  by rewrite fired_app, fired_notifyAll, app_nil_r.
Qed.

Lemma showToolbar_in_single_slot (sub : nat → World → completion unit) (el : nat)
    (gp : option PositionFn) (w : World) :
  timers w = [] ∨ single_slot w → single_slot (InHost.showToolbar sub el gp w).1.
Proof.
  intros Hw.
  destruct (showToolbar_in_frame sub el gp w) as (_ & _ & _ & Ht & Hh & _).
  unfold single_slot. rewrite Hh, Ht.
  destruct Hw as [Hw|Hw]; [by apply cleared_no_timers | by apply cleared_single_slot].
Qed.

Lemma elapse_in_single_slot (sub : nat → World → completion unit) (n : nat) (w : World) :
  single_slot w → single_slot (InHost.elapse sub n w).
Proof.
  intros Hw. pose proof Hw as Hw'. unfold single_slot in Hw'.
  destruct (hideTimeout (manager w)) as [id|] eqn:Hid.
  - destruct Hw' as [d Ht].
    destruct (decide (clock w + n < d)%nat) as [Hlt|Hge].
    + rewrite (elapse_in_early sub n _ w Ht) by done.
      unfold single_slot. cbn. rewrite Hid. eauto.
    + rewrite (elapse_in_late sub n _ w Ht) by (cbn; lia).
      by rewrite fireTimer_in_one.
  - rewrite elapse_in_idle by done. unfold single_slot. cbn. by rewrite Hid.
Qed.

Lemma exec_in_single_slot (sub handler : nat → World → completion unit)
    (call : InHost.Call) (w : World) :
  single_slot w → single_slot (InHost.exec sub handler call w).
Proof.
  intros Hw. pose proof (cleared_single_slot w Hw) as Hc.
  destruct call as [el gp| |delay| |f oc onFocus|c|[c]| |n|el e]; cbn [InHost.exec].
  - apply showToolbar_in_single_slot. by right.
  - rewrite hideToolbar_in_eq. unfold single_slot; cbn. by rewrite Hc.
  - rewrite scheduleHide_eq. unfold single_slot; cbn. rewrite Hc. eauto.
  - unfold cancelScheduledHide. rewrite clearHideTimeout_eq. unfold single_slot; cbn.
    by rewrite Hc.
  - rewrite applyFormat_in_eq.
    destruct (activeElement _) as [el|]; [|exact Hw].
    destruct (applyFormattingOnSelection _ _) as [v|err]; [|exact Hw].
    cbn zeta. destruct (handlerOutcome _ _ _); [|exact Hw].
    destruct onFocus as [gp|]; cbn [fst]; [|exact Hw].
    apply showToolbar_in_single_slot. right. exact Hw.
  - exact Hw.
  - exact Hw.
  - exact Hw.
  - by apply elapse_in_single_slot.
  - exact Hw.
Qed.

Lemma run_in_snoc (sub handler : nat → World → completion unit)
    (calls : list InHost.Call) (call : InHost.Call) (w : World) :
  InHost.run sub handler (calls ++ [call]) w
  = InHost.exec sub handler call (InHost.run sub handler calls w).
Proof. unfold InHost.run. by rewrite foldl_app. Qed.

Lemma Reachable_in_ind (sub handler : nat → World → completion unit)
    (P : World → Prop) :
  (∀ d, P (initialWorld d)) →
  (∀ call w, InHost.Reachable sub handler w → P w →
             P (InHost.exec sub handler call w)) →
  ∀ w, InHost.Reachable sub handler w → P w.
Proof.
  intros Hinit Hstep w (d & calls & ->).
  induction calls as [|call calls IH] using rev_ind; [apply Hinit|].
  rewrite run_in_snoc. apply Hstep; [by exists d, calls | exact IH].
Qed.

Lemma Reachable_in_single_slot (sub handler : nat → World → completion unit)
    (w : World) :
  InHost.Reachable sub handler w → single_slot w.
Proof.
  revert w. apply (Reachable_in_ind sub handler single_slot); [done|].
  intros call w _. apply exec_in_single_slot.
Qed.

Lemma scheduleHide_single_run (sub handler : nat → World → completion unit)
    (delay : Z) (w : World) :
  single_slot w →
  InHost.exec sub handler (InHost.ScheduleHide delay) w
  = {| manager := with_hideTimeout (Some (nextTimer w)) (manager w);
       dom := dom w;
       timers := [{| timerId := nextTimer w; due := (clock w + timerDelay delay)%nat |}];
       clock := clock w; nextTimer := Pos.succ (nextTimer w); trace := trace w |}.
Proof. intros Hw. cbn [InHost.exec]. by apply scheduleHide_single. Qed.

(** A single timer that is due: what the wait leaves. *)
Lemma elapse_in_fires (sub : nat → World → completion unit) (n : nat) (t : Timer)
    (w : World) :
  timers w = [t] → (due t ≤ clock w + n)%nat →
  let w' := InHost.elapse sub n w in
  manager w' = {| activeElementOnChange := None; hideTimeout := None;
                  state := initialState; subscribers := subscribers (manager w) |}
  ∧ dom w' = dom w ∧ clock w' = (clock w + n)%nat ∧ nextTimer w' = nextTimer w
  ∧ timers w' = []
  ∧ ∃ who, who `prefix_of` subscribers (manager w)
           ∧ trace w' = trace w ++ [TimerFired (timerId t)] ++ notifyAll initialState who
           ∧ (all_return sub (subscribers (manager w)) → who = subscribers (manager w))
           ∧ ∀ c, heard sub c (subscribers (manager w)) → c ∈ who.
Proof.
  intros Ht Hle. cbn zeta. rewrite (elapse_in_late sub n t w Ht Hle).
  destruct (fireTimer_in_frame sub t (with_clock (Nat.max (clock w) (due t)) w))
    as (Hm & Hd & _ & Hn & Hts & who & Hpre & Htr & Hall & Hheard).
  cbn [with_clock manager dom clock nextTimer timers trace] in *.
  rewrite Hm, Hd, Hn, Hts. split_and!; try done.
  - apply cleared_no_timers. cbn. rewrite Ht. destruct t. apply filter_own_timer.
  - by exists who.
Qed.

Lemma timerDelay_in_range (d : Z) :
  1 ≤ d ≤ 2147483647 → timerDelay d = Z.to_nat d.
Proof.
  intros [H1 H2]. unfold timerDelay.
  destruct (Z.leb_spec 1 d), (Z.leb_spec d 2147483647); try lia. reflexivity.
Qed.


(** ** One round of notifications *)

(** What one round of notifications leaves on the trace, and how it ends. *)
Lemma called_spec (sub : nat → World → completion unit) (w : World) (subs : list nat) :
  called sub w subs `prefix_of` subs
  ∧ (outcome sub w subs = Normal tt → called sub w subs = subs)
  ∧ (∀ err, outcome sub w subs = Throw err →
       ∃ before c after wc,
         subs = before ++ c :: after
         ∧ called sub w subs = before ++ [c]
         ∧ sub c wc = Throw err)
  ∧ (all_return sub subs → called sub w subs = subs ∧ outcome sub w subs = Normal tt)
  ∧ (∀ c, heard sub c subs → c ∈ called sub w subs).
Proof.
  split_and!.
  - apply called_prefix.
  - apply called_outcome_normal.
  - intros err. apply called_outcome_throw.
  - intros Hall. by apply called_all_return.
  - intros c. apply heard_called.
Qed.

(** [hideToolbar]: what it leaves, who is called, how it ends. *)
Lemma hideToolbar_in_spec (sub : nat → World → completion unit) (w : World) :
  let r := InHost.hideToolbar sub w in
  let subs := subscribers (manager w) in
  manager r.1 = {| activeElementOnChange := None; hideTimeout := None;
                   state := initialState; subscribers := subs |}
  ∧ dom r.1 = dom w
  ∧ timers r.1 = cleared w
  ∧ clock r.1 = clock w
  ∧ nextTimer r.1 = nextTimer w
  ∧ ∃ who,
      who `prefix_of` subs
      ∧ trace r.1 = trace w ++ notifyAll initialState who
      ∧ (r.2 = Normal tt → who = subs)
      ∧ (∀ err, r.2 = Throw err →
           ∃ before c after wc,
             subs = before ++ c :: after ∧ who = before ++ [c]
             ∧ sub c wc = Throw err)
      ∧ (all_return sub subs → who = subs ∧ r.2 = Normal tt)
      ∧ ∀ c, heard sub c subs → c ∈ who.
Proof.
  cbn zeta. rewrite hideToolbar_in_eq. cbn [fst snd manager dom timers clock nextTimer trace].
  split_and!; try done.
  destruct (called_spec sub (hidden w) (subscribers (manager w)))
    as (Hpre & Hnormal & Hthrow & Hall & Hheard).
  by exists (called sub (hidden w) (subscribers (manager w))).
Qed.

(** [showToolbar] when [getPosition] returns: what it leaves, who is called,
    how it ends. *)
Lemma showToolbar_in_spec (sub : nat → World → completion unit) (element : nat)
    (getPosition : option PositionFn) (pos : ToolbarPosition) (w : World) :
  nullish getPosition defaultGetPosition (dom w !!! element) = Normal pos →
  let r := InHost.showToolbar sub element getPosition w in
  let subs := subscribers (manager w) in
  let s := {| activeElement := Some element; isVisible := true;
              position := Some pos |} in
  manager r.1 = {| activeElementOnChange := capturedOnChange (dom w !!! element);
                   hideTimeout := None; state := s; subscribers := subs |}
  ∧ dom r.1 = dom w
  ∧ timers r.1 = cleared w
  ∧ clock r.1 = clock w
  ∧ nextTimer r.1 = nextTimer w
  ∧ ∃ who,
      who `prefix_of` subs
      ∧ trace r.1 = trace w ++ notifyAll s who
      ∧ (r.2 = Normal tt → who = subs)
      ∧ (∀ err, r.2 = Throw err →
           ∃ before c after wc,
             subs = before ++ c :: after ∧ who = before ++ [c]
             ∧ sub c wc = Throw err)
      ∧ (all_return sub subs → who = subs ∧ r.2 = Normal tt)
      ∧ ∀ c, heard sub c subs → c ∈ who.
Proof.
  intros Hpos. cbn zeta. rewrite showToolbar_in_eq. cbn zeta. rewrite Hpos.
  cbn [fst snd manager dom timers clock nextTimer trace].
  split_and!; try done.
  destruct (called_spec sub (shown w element pos) (subscribers (manager w)))
    as (Hpre & Hnormal & Hthrow & Hall & Hheard).
  by exists (called sub (shown w element pos) (subscribers (manager w))).
Qed.

(** * The properties of the specification, in the host *)

(** ** The deferred hide *)

(** C5. The manager holds at most one pending timer.  A [scheduleHide]
    that follows another replaces its timer: one timer is pending, that of
    the second call, and for a delay from 1 to 2^31 - 1 it fires once, when
    that delay has passed (for 100 then 50: at 50 ms).  [showToolbar] leaves
    no timer pending; so when an input is shown, its hide scheduled, and
    another input shown before the delay has passed, the second input stays
    the active one and no timer ever fires.  This holds whatever the
    subscribers and the change handlers do. *)
Theorem single_pending_hide (sub handler : nat → World → completion unit) (w : World) :
  InHost.Reachable sub handler w →
  (List.length (timers w) ≤ 1)%nat
  ∧ (∀ d1 d2 : Z,
       let w2 := InHost.run sub handler
                   [InHost.ScheduleHide d1; InHost.ScheduleHide d2] w in
       let id := Pos.succ (nextTimer w) in
       (∃ due, timers w2 = [{| timerId := id; due := due |}])
       ∧ (1 ≤ d2 ≤ 2147483647 →
          timers w2 = [{| timerId := id; due := (clock w + Z.to_nat d2)%nat |}]
          ∧ ∀ n : nat,
              fired (trace (InHost.elapse sub n w2))
              = fired (trace w) ++ (if (n <? Z.to_nat d2)%nat then [] else [id])
              ∧ state (manager (InHost.elapse sub n w2))
                = (if (n <? Z.to_nat d2)%nat then state (manager w) else initialState)))
  ∧ (∀ (element : nat) (getPosition : option PositionFn),
       timers (InHost.exec sub handler (InHost.ShowToolbar element getPosition) w) = []
       ∧ hideTimeout (manager (InHost.exec sub handler
                                 (InHost.ShowToolbar element getPosition) w))
         = None)
  ∧ (∀ (inputA inputB : nat) (gpA gpB : option PositionFn) (d : Z) (m n : nat)
       (pos : ToolbarPosition),
       1 ≤ d ≤ 2147483647 →
       (m < Z.to_nat d)%nat →
       nullish gpB defaultGetPosition (dom w !!! inputB) = Normal pos →
       let w' := InHost.run sub handler
                   [InHost.ShowToolbar inputA gpA; InHost.ScheduleHide d;
                    InHost.Elapse m; InHost.ShowToolbar inputB gpB;
                    InHost.Elapse n] w in
       state (manager w')
       = {| activeElement := Some inputB; isVisible := true; position := Some pos |}
       ∧ timers w' = []
       ∧ fired (trace w') = fired (trace w)).
Proof.
  intros Hw%Reachable_in_single_slot. split_and!.
  - unfold single_slot in Hw. destruct (hideTimeout (manager w)).
    + destruct Hw as [d ->]. cbn. lia.
    + rewrite Hw. cbn. lia.
  - intros d1 d2. cbn zeta.
    change (InHost.run sub handler [InHost.ScheduleHide d1; InHost.ScheduleHide d2] w)
      with (InHost.exec sub handler (InHost.ScheduleHide d2)
              (InHost.exec sub handler (InHost.ScheduleHide d1) w)).
    pose proof (exec_in_single_slot sub handler (InHost.ScheduleHide d1) w Hw) as Hw1.
    rewrite (scheduleHide_single_run sub handler d2 _ Hw1).
    rewrite (scheduleHide_single_run sub handler d1 w Hw) in *.
    cbn [timers clock nextTimer trace].
    split; [by eexists|]. intros Hd. rewrite (timerDelay_in_range d2 Hd).
    split; [reflexivity|]. intros n.
    destruct (Nat.ltb_spec n (Z.to_nat d2)).
    + erewrite elapse_in_early; [|reflexivity|cbn; lia]. cbn. by rewrite app_nil_r.
    + edestruct elapse_in_fires as (-> & _ & _ & _ & _ & who & _ & -> & _);
        [reflexivity|cbn; lia|].
      cbn [trace timerId state]. by rewrite !fired_app, fired_notifyAll.
  - intros el gp. cbn [InHost.exec].
    destruct (showToolbar_in_frame sub el gp w) as (_ & _ & _ & -> & -> & _).
    by rewrite cleared_single_slot.
  - intros inputA inputB gpA gpB d m n pos Hd Hm Hpos. cbn zeta.
    rewrite <- (timerDelay_in_range d Hd) in Hm.
    change (InHost.run sub handler _ w)
      with (InHost.elapse sub n
              (InHost.showToolbar sub inputB gpB
                 (InHost.elapse sub m
                    (InHost.exec sub handler (InHost.ScheduleHide d)
                       (InHost.showToolbar sub inputA gpA w).1))).1).
    pose proof (showToolbar_in_single_slot sub inputA gpA w (or_intror Hw)) as Hw1.
    destruct (showToolbar_in_frame sub inputA gpA w)
      as (Hdom & Hclock & Hnext & _ & _ & _ & Hfired).
    set (w1 := (InHost.showToolbar sub inputA gpA w).1) in *.
    rewrite (scheduleHide_single_run sub handler d w1 Hw1).
    rewrite (elapse_in_early sub m {| timerId := nextTimer w1;
                                      due := (clock w1 + timerDelay d)%nat |});
      [|reflexivity|cbn; lia].
    rewrite showToolbar_in_eq. cbn zeta. cbn [dom with_clock]. rewrite Hdom, Hpos.
    cbn [fst].
    rewrite elapse_in_idle by (cbn; apply filter_own_timer).
    cbn [with_clock state manager with_state timers trace cleared hideTimeout
         with_hideTimeout with_activeElementOnChange].
    split_and!; [done | apply filter_own_timer |].
    by rewrite fired_app, fired_notifyAll, app_nil_r.
Qed.

Lemma single_pending_hide_witness :
  let w := InHost.run throwing3 throwing7
             [InHost.Subscribe 3%nat; InHost.Subscribe 4%nat;
              InHost.ShowToolbar 1%nat None] (initialWorld page) in
  let w2 := InHost.run throwing3 throwing7
              [InHost.ScheduleHide 100; InHost.ScheduleHide 50] w in
  InHost.Reachable throwing3 throwing7 w
  ∧ timers w2 = [{| timerId := 2; due := 50 |}]
  ∧ fired (trace (InHost.elapse throwing3 49 w2)) = []
  ∧ fired (trace (InHost.elapse throwing3 50 w2)) = [2%positive]
  ∧ fired (trace (InHost.elapse throwing3 400 w2)) = [2%positive]
  ∧ state (manager (InHost.elapse throwing3 50 w2)) = initialState
  ∧ (let w' := InHost.run throwing3 throwing7
                 [InHost.ShowToolbar 1%nat None; InHost.ScheduleHide 500;
                  InHost.Elapse 499; InHost.ShowToolbar 2%nat None;
                  InHost.Elapse 1000] w in
     state (manager w')
     = {| activeElement := Some 2%nat; isVisible := true;
          position := Some {| x := 10; y := 65 |} |}
     ∧ timers w' = []
     ∧ fired (trace w') = []).
Proof.
  cbn zeta.
  set (w := InHost.run throwing3 throwing7
              [InHost.Subscribe 3%nat; InHost.Subscribe 4%nat;
               InHost.ShowToolbar 1%nat None] (initialWorld page)).
  assert (InHost.Reachable throwing3 throwing7 w) as Hr
    by (by exists page, [InHost.Subscribe 3%nat; InHost.Subscribe 4%nat;
                         InHost.ShowToolbar 1%nat None]).
  destruct (single_pending_hide throwing3 throwing7 w Hr)
    as (_ & Htwice & _ & Hrace).
  destruct (Htwice 100 50) as [_ Hin]. destruct Hin as [Ht Hn]; [lia|].
  destruct (Hrace 1%nat 2%nat None None 500 499%nat 1000%nat {| x := 10; y := 65 |})
    as (R1 & R2 & R3); [lia | lia | reflexivity |].
  split_and!; [exact Hr | exact Ht | apply (Hn 49%nat) | apply (Hn 50%nat)
              | apply (Hn 400%nat) | apply (Hn 50%nat) | exact R1 | exact R2
              | exact R3].
Defined.




(** ** hideToolbar *)




(** ** applyFormat *)

Lemma handlerCalls_app (t1 t2 : list Effect) :
  handlerCalls (t1 ++ t2) = handlerCalls t1 ++ handlerCalls t2.
Proof. apply omap_app. Qed.

Lemma handlerCalls_changeEffects (el : nat) (v : string) (chosen : option nat) :
  handlerCalls (changeEffects el v chosen)
  = match chosen with Some h => [(h, el, el)] | None => [] end.
Proof. by destruct chosen. Qed.

Lemma handlerCalls_formatEffects (el : nat) (v : string) (chosen : option nat) :
  handlerCalls (formatEffects el v chosen)
  = match chosen with Some h => [(h, el, el)] | None => [] end.
Proof. by destruct chosen. Qed.

(** The stored handler stays that of the active element as long as no call
    shows an element. *)
Lemma exec_handler_kept (sub handler : nat → World → completion unit) (el : nat)
    (h : option nat) (call : InHost.Call) (w : World) :
  ¬ shows call → handler_kept el h w →
  handler_kept el h (InHost.exec sub handler call w).
Proof.
  intros Hcall Hw. unfold handler_kept in *.
  destruct call as [el' gp| |delay| |f oc onFocus|c|[c]| |n|el' e]; cbn [InHost.exec];
    cbn in Hcall; try done.
  - rewrite hideToolbar_in_eq. cbn. done.
  - rewrite scheduleHide_eq. exact Hw.
  - unfold cancelScheduledHide. rewrite clearHideTimeout_eq. exact Hw.
  - destruct onFocus; [done|]. rewrite applyFormat_in_eq.
    destruct (activeElement (state (manager w))) as [a|] eqn:Ha;
      [|cbn; by rewrite Ha].
    destruct (applyFormattingOnSelection _ _); [|cbn; by rewrite Ha].
    cbn zeta. destruct (handlerOutcome _ _ _); cbn; by rewrite Ha.
  - apply (elapse_in_keeps sub (λ w', activeElement (state (manager w')) = Some el →
                                      activeElementOnChange (manager w') = h));
      [| |exact Hw].
    + intros t w' _. rewrite fireTimer_in_eq. cbn. done.
    + intros c w' Hw'. exact Hw'.
Qed.

Lemma run_handler_kept (sub handler : nat → World → completion unit) (el : nat)
    (h : option nat) (calls : list InHost.Call) (w : World) :
  Forall (λ call, ¬ shows call) calls →
  handler_kept el h w → handler_kept el h (InHost.run sub handler calls w).
Proof.
  intros Hcalls. revert w. induction Hcalls as [|call calls Hcall _ IH]; intros w Hw;
    [done|].
  change (InHost.run sub handler (call :: calls) w)
    with (InHost.run sub handler calls (InHost.exec sub handler call w)).
  by apply IH, exec_handler_kept.
Qed.

Lemma showToolbar_in_handler (sub : nat → World → completion unit) (el : nat)
    (gp : option PositionFn) (w : World) :
  activeElementOnChange (manager (InHost.showToolbar sub el gp w).1)
  = capturedOnChange (dom w !!! el).
Proof.
  rewrite showToolbar_in_eq. cbn zeta. by destruct (nullish gp defaultGetPosition _).
Qed.

Lemma showToolbar_in_handlerCalls (sub : nat → World → completion unit) (el : nat)
    (gp : option PositionFn) (w : World) :
  handlerCalls (trace (InHost.showToolbar sub el gp w).1) = handlerCalls (trace w).
Proof.
  rewrite showToolbar_in_eq. cbn zeta.
  destruct (nullish gp defaultGetPosition _); cbn [fst trace]; [|done].
  by rewrite handlerCalls_app, no_notify_handlerCalls, app_nil_r.
Qed.

(** C8, as the code has it.  With an active element and a formatter that
    returns, [applyFormat] writes the new value, dispatches a bubbling "input"
    event on the element, then calls the change handler it prefers, with the
    element as [currentTarget] and [target].  When that call returns, or
    there is no handler, it calls [focus()] on the element and returns; when
    the handler throws, the exception leaves [applyFormat] and nothing more
    is done.  The handler is the [onChange] argument when given, else the one
    the manager has stored, else none.  The stored one is the [props.onChange]
    of the element given to the last [showToolbar]: that of the active
    element, read when it was shown, as long as no [showToolbar] has been
    called since. *)
Theorem applyFormat_notifies (sub handler : nat → World → completion unit) :
  (∀ (w : World) (element : nat) (formatter : FormatterFunction)
     (onChangeOverride : option nat) (onFocus : option PositionFn) (newValue : string),
     activeElement (state (manager w)) = Some element →
     applyFormattingOnSelection (dom w !!! element) formatter = Normal newValue →
     let chosen := match onChangeOverride with
                   | Some h => Some h
                   | None => activeElementOnChange (manager w)
                   end in
     let result := InHost.applyFormat sub handler formatter onChangeOverride onFocus w in
     let ended := handlerOutcome handler chosen (changed w element newValue chosen) in
     (∃ rest, trace result.1 = trace w ++ changeEffects element newValue chosen ++ rest)
     ∧ (ended = Normal tt →
        result.2 = Normal tt
        ∧ ∃ rest, trace result.1 = trace w ++ formatEffects element newValue chosen ++ rest
                  ∧ (onFocus = None → rest = []))
     ∧ (∀ err, ended = Throw err →
          result = (changed w element newValue chosen, Throw err)))
  ∧ (∀ (w : World) (element : nat) (getPosition : option PositionFn),
       activeElementOnChange (manager (InHost.showToolbar sub element getPosition w).1)
       = capturedOnChange (dom w !!! element))
  ∧ (∀ (w0 : World) (element : nat) (getPosition : option PositionFn)
       (calls : list InHost.Call),
       Forall (λ call, ¬ shows call) calls →
       let w := InHost.run sub handler calls
                  (InHost.showToolbar sub element getPosition w0).1 in
       activeElement (state (manager w)) = Some element →
       activeElementOnChange (manager w) = capturedOnChange (dom w0 !!! element))
  ∧ (∀ (w0 : World) (element : nat) (getPosition : option PositionFn)
       (calls : list InHost.Call) (formatter : FormatterFunction)
       (onFocus : option PositionFn),
       Forall (λ call, ¬ shows call) calls →
       uses_handler_captured_at_show sub handler w0 element getPosition calls
         formatter onFocus).
Proof.
  assert (∀ (w0 : World) (element : nat) (getPosition : option PositionFn)
            (calls : list InHost.Call),
            Forall (λ call, ¬ shows call) calls →
            handler_kept element (capturedOnChange (dom w0 !!! element))
              (InHost.run sub handler calls
                 (InHost.showToolbar sub element getPosition w0).1))
    as Hkept.
  { intros w0 el gp calls Hcalls. apply run_handler_kept; [done|].
    intros _. apply showToolbar_in_handler. }
  split_and!.
  - intros w el f oc onFocus v Hel Hv. cbn zeta. rewrite applyFormat_in_eq, Hel, Hv.
    cbn zeta.
    change (match oc with Some h => Some h | None => activeElementOnChange (manager w) end)
      with (js_or oc (activeElementOnChange (manager w))).
    set (chosen := js_or oc (activeElementOnChange (manager w))).
    destruct (handlerOutcome handler chosen (changed w el v chosen)) as [[]|err].
    + cbn [fst snd].
      assert (∃ rest,
                trace (match onFocus with
                       | Some gp => (InHost.showToolbar sub el (Some gp)
                                       (formatted w el v oc)).1
                       | None => formatted w el v oc
                       end)
                = trace w ++ formatEffects el v chosen ++ rest
                ∧ (onFocus = None → rest = [])) as (rest & Hrest & Hnone).
      { destruct onFocus as [gp|].
        - rewrite showToolbar_in_eq. cbn zeta.
          destruct (nullish (Some gp) defaultGetPosition _); cbn [fst trace formatted].
          + eexists. split; [|intros [=]]. unfold formatted. cbn [trace with_trace].
            rewrite <- app_assoc. reflexivity.
          + exists []. split; [|done]. by rewrite app_nil_r.
        - exists []. split; [|done]. by rewrite app_nil_r. }
      split_and!.
      * exists ([Focus el] ++ rest). rewrite Hrest. unfold formatEffects.
        by rewrite <- !app_assoc.
      * intros _. split; [done|]. by exists rest.
      * intros err [=].
    + cbn [fst snd]. split_and!.
      * exists []. by rewrite app_nil_r.
      * intros [=].
      * by intros err' [= ->].
  - intros w el gp. apply showToolbar_in_handler.
  - intros w0 el gp calls Hcalls. cbn zeta. by apply Hkept.
  - intros w0 el gp calls f onFocus Hcalls. unfold uses_handler_captured_at_show.
    cbn zeta. intros _ Hel v Hv. rewrite applyFormat_in_eq, Hel, Hv. cbn zeta.
    rewrite (Hkept w0 el gp calls Hcalls Hel). cbn [js_or].
    destruct (handlerOutcome _ _ _); cbn [fst].
    + destruct onFocus as [gp'|]; rewrite ?showToolbar_in_handlerCalls;
        unfold formatted; cbn [trace with_trace changed]; cbn [js_or];
        rewrite (Hkept w0 el gp calls Hcalls Hel);
        by rewrite handlerCalls_app, handlerCalls_formatEffects.
    + cbn [trace changed].
      by rewrite handlerCalls_app, handlerCalls_changeEffects.
Qed.

Lemma applyFormat_notifies_witness :
  let w := InHost.run returning throwing7
             [InHost.ScheduleHide 500; InHost.Elapse 100]
             (InHost.showToolbar returning 1%nat None (initialWorld page)).1 in
  InHost.applyFormat returning throwing7 uppercaseFormatter None None w
  = (changed w 1%nat "HELLO world" (Some 7%nat), Throw "handler 7 failed")
  ∧ (InHost.applyFormat returning throwing7 uppercaseFormatter (Some 9%nat) None w).2
    = Normal tt
  ∧ ∃ rest,
      trace (InHost.applyFormat returning throwing7 uppercaseFormatter (Some 9%nat)
               None w).1
      = trace w ++ [ValueWritten 1%nat "HELLO world"; DispatchEvent 1%nat "input" true;
                    ChangeCalled 9%nat 1%nat 1%nat; Focus 1%nat] ++ rest.
Proof.
  cbn zeta.
  set (w := InHost.run returning throwing7 [InHost.ScheduleHide 500; InHost.Elapse 100]
              (InHost.showToolbar returning 1%nat None (initialWorld page)).1).
  destruct (applyFormat_notifies returning throwing7) as (Hdo & _ & _ & _).
  destruct (Hdo w 1%nat uppercaseFormatter None None "HELLO world"%string
              eq_refl eq_refl) as (_ & _ & Hthrow).
  destruct (Hdo w 1%nat uppercaseFormatter (Some 9%nat) None "HELLO world"%string
              eq_refl eq_refl) as (_ & Hreturn & _).
  destruct Hreturn as (Hnormal & rest & Ht & _); [reflexivity|].
  split_and!.
  - apply (Hthrow "handler 7 failed"%string). reflexivity.
  - exact Hnormal.
  - exists rest. exact Ht.
Defined.

(** C8, as stated: the handler that [applyFormat] falls back on is the one
    captured from the active element when it was shown.  After [show(2)] and a
    [show(1)] whose [getPosition] throws, element 2 is active and the handler
    read from element 1 is called on it. *)
Lemma handler_captured_at_show_counterexample :
  ¬ uses_handler_captured_at_show returning returning (initialWorld page) 2%nat None
      [InHost.ShowToolbar 1%nat (Some throwingPosition)] uppercaseFormatter None.
Proof.
  unfold uses_handler_captured_at_show. intros H. cbn zeta in H.
  specialize (H eq_refl eq_refl "SECOND"%string eq_refl).
  vm_compute in H. discriminate.
Qed.

(** C9, as the code has it.  [applyFormat] itself never assigns the state
    and never calls a subscriber: when there is no active element, when it
    throws (the formatter or the change handler threw), or when [focus()]
    finds no focus handler to run, the manager is as it was and nothing it
    added to the trace is a call of a subscriber.  When [focus()] runs the
    focus handler of the hook, the call ends as that handler's [showToolbar]
    leaves it: the pending hide is cancelled, the position is computed anew
    and the subscribers are called. *)
Theorem applyFormat_frame (sub handler : nat → World → completion unit) (w : World)
    (formatter : FormatterFunction) (onChange : option nat)
    (onFocus : option PositionFn) :
  let result := InHost.applyFormat sub handler formatter onChange onFocus w in
  let w' := result.1 in
  ((onFocus = None
    ∨ activeElement (state (manager w)) = None
    ∨ (∃ err, result.2 = Throw err)) →
   (getState w').2 = (getState w).2
   ∧ manager w' = manager w
   ∧ ∃ suffix, trace w' = trace w ++ suffix ∧ ∀ c s, Notify c s ∉ suffix)
  ∧ (∀ (el : nat) (newValue : string) (gp : PositionFn),
       activeElement (state (manager w)) = Some el →
       applyFormattingOnSelection (dom w !!! el) formatter = Normal newValue →
       result.2 = Normal tt →
       onFocus = Some gp →
       let before_focus := formatted w el newValue onChange in
       w' = (InHost.showToolbar sub el (Some gp) before_focus).1
       ∧ timers w' = cleared w
       ∧ hideTimeout (manager w') = None
       ∧ ∀ pos, gp (dom before_focus !!! el) = Normal pos →
           let s := {| activeElement := Some el; isVisible := true;
                       position := Some pos |} in
           state (manager w') = s
           ∧ ∃ who,
               who `prefix_of` subscribers (manager w)
               ∧ trace w' = trace before_focus ++ notifyAll s who
               ∧ (all_return sub (subscribers (manager w)) →
                  who = subscribers (manager w))
               ∧ ∀ c, heard sub c (subscribers (manager w)) → c ∈ who).
Proof.
  cbn zeta. rewrite applyFormat_in_eq. split.
  - intros Hcase.
    destruct (activeElement (state (manager w))) as [el|] eqn:Hel.
    + destruct (applyFormattingOnSelection (dom w !!! el) formatter) as [v|err] eqn:Hv.
      * cbn zeta in *.
        destruct (handlerOutcome _ _ _) as [[]|err].
        -- destruct Hcase as [->|[[=]|(err & [=])]].
           cbn [fst formatted manager trace with_trace changed].
           split_and!; [done..|].
           eexists. split; [reflexivity|]. apply no_notify_elem.
           unfold formatEffects, changeEffects.
           destruct (js_or onChange _); repeat constructor.
        -- cbn [fst changed manager trace]. split_and!; [done..|].
           eexists. split; [reflexivity|]. apply no_notify_elem.
           unfold changeEffects. destruct (js_or onChange _); repeat constructor.
      * cbn [fst]. split_and!; [done..|]. exists []. rewrite app_nil_r.
        split; [done|]. apply no_notify_elem. constructor.
    + cbn [fst]. split_and!; [done..|]. eexists. split; [reflexivity|].
      apply no_notify_elem. repeat constructor.
  - intros el v gp Hel Hv. rewrite Hel, Hv. cbn zeta.
    destruct (handlerOutcome _ _ _) as [[]|err]; cbn [fst snd]; [|done].
    intros _ ->. split; [done|].
    rewrite showToolbar_in_eq. cbn zeta. cbn [nullish].
    destruct (gp (dom (formatted w el v onChange) !!! el)) as [pos|err];
      cbn [fst timers manager with_state with_activeElementOnChange with_hideTimeout
           hideTimeout state trace];
      (split_and!; [done | done |]).
    + intros pos' [= <-]. split; [done|].
      match goal with
      | |- context [called sub ?w0 ?l] =>
          destruct (called_spec sub w0 l) as (Hpre & _ & _ & Hall & Hheard);
          exists (called sub w0 l)
      end.
      split_and!; [exact Hpre | done | intros H; by apply Hall | exact Hheard].
    + intros pos' [=].
Qed.

Lemma applyFormat_frame_witness :
  let w := InHost.run returning throwing7
             [InHost.ShowToolbar 1%nat None; InHost.ScheduleHide 500]
             (initialWorld page) in
  manager (InHost.applyFormat returning throwing7 uppercaseFormatter None
             (Some UseFormattingToolbar.defaultGetPosition) w).1 = manager w
  ∧ timers (InHost.applyFormat returning throwing7 uppercaseFormatter None
              (Some UseFormattingToolbar.defaultGetPosition) w).1
    = [{| timerId := 1; due := 500 |}]
  ∧ timers (InHost.applyFormat returning returning uppercaseFormatter None
              (Some UseFormattingToolbar.defaultGetPosition) w).1 = [].
Proof.
  cbn zeta.
  set (w := InHost.run returning throwing7
              [InHost.ShowToolbar 1%nat None; InHost.ScheduleHide 500]
              (initialWorld page)).
  split_and!.
  - pose proof (applyFormat_frame returning throwing7 w uppercaseFormatter None
                  (Some UseFormattingToolbar.defaultGetPosition)) as H.
    cbn zeta in H. destruct H as [H _].
    destruct H as (_ & -> & _); [|done].
    right. right. by exists "handler 7 failed"%string.
  - reflexivity.
  - pose proof (applyFormat_frame returning returning w uppercaseFormatter None
                  (Some UseFormattingToolbar.defaultGetPosition)) as H.
    cbn zeta in H. destruct H as [_ H].
    destruct (H 1%nat "HELLO world"%string UseFormattingToolbar.defaultGetPosition
                eq_refl eq_refl eq_refl eq_refl) as (_ & -> & _). reflexivity.
Defined.

(** C9, as stated: [applyFormat] changes no snapshot and calls no
    subscriber.  On an input that lost the focus and carries the focus handler
    of the hook, [focus()] runs [showToolbar], and the subscriber is called. *)
Lemma applyFormat_is_silent_counterexample :
  ¬ applyFormat_is_silent returning returning
      (InHost.run returning returning
         [InHost.Subscribe 3%nat; InHost.ShowToolbar 1%nat None] (initialWorld page))
      uppercaseFormatter None (Some UseFormattingToolbar.defaultGetPosition).
Proof.
  unfold applyFormat_is_silent. intros [_ H]. vm_compute in H. discriminate.
Qed.

(** * Further properties, in the host *)

(** ** Who is called *)

Lemma heard_Set_add (sub : nat → World → completion unit) (c c' : nat)
    (subs : list nat) :
  heard sub c subs → heard sub c (Set_add c' subs).
Proof.
  intros Hc. unfold Set_add. case_decide; [done|].
  destruct Hc as (before & after & -> & Hb).
  exists before, (after ++ [c']). split; [|done].
  by rewrite <- app_assoc.
Qed.

Lemma heard_Set_delete (sub : nat → World → completion unit) (c c' : nat)
    (subs : list nat) :
  c' ≠ c → heard sub c subs → heard sub c (Set_delete c' subs).
Proof.
  intros Hne (before & after & -> & Hb). unfold Set_delete.
  exists (filter (λ a, a ≠ c') before), (filter (λ a, a ≠ c') after). split.
  - rewrite filter_app, filter_cons_True by done. done.
  - apply Forall_forall. intros a [_ Ha]%list_elem_of_filter.
    unfold all_return in Hb. rewrite Forall_forall in Hb. by apply Hb.
Qed.








(** ** A subscriber sees the state *)

Lemma mirror_refl (sub : nat → World → completion unit) (c : nat) (w : World) :
  heard sub c (subscribers (manager w)) → mirror_step sub c w w.
Proof. intros Hc. split; [done|]. exists []. by rewrite app_nil_r. Qed.

Lemma mirror_trans (sub : nat → World → completion unit) (c : nat) (w1 w2 w3 : World) :
  mirror_step sub c w1 w2 → mirror_step sub c w2 w3 → mirror_step sub c w1 w3.
Proof.
  intros (_ & t1 & Ht1 & Hs1) (Hc & t2 & Ht2 & Hs2). split; [done|].
  exists (t1 ++ t2). split; [by rewrite Ht2, Ht1, app_assoc|].
  by rewrite latest_app, <- Hs1.
Qed.

(** A step that keeps the state and calls no subscriber. *)
Lemma mirror_silent (sub : nat → World → completion unit) (c : nat) (w w' : World)
    (suffix : list Effect) :
  heard sub c (subscribers (manager w')) →
  state (manager w') = state (manager w) →
  trace w' = trace w ++ suffix →
  Forall (λ e, match e with Notify _ _ => False | _ => True end) suffix →
  mirror_step sub c w w'.
Proof.
  intros Hc Hs Ht Hn. split; [done|]. exists suffix. split; [done|].
  by rewrite latest_silent.
Qed.

Lemma mirror_showToolbar (sub : nat → World → completion unit) (c : nat) (el : nat)
    (gp : option PositionFn) (w : World) :
  heard sub c (subscribers (manager w)) →
  mirror_step sub c w (InHost.showToolbar sub el gp w).1.
Proof.
  intros Hc.
  destruct (nullish gp defaultGetPosition (dom w !!! el)) as [pos|err] eqn:Hpos.
  - destruct (showToolbar_in_spec sub el gp pos w Hpos)
      as (Hm & _ & _ & _ & _ & who & _ & Ht & _ & _ & _ & Hheard).
    split; [by rewrite Hm|]. exists (notifyAll {| activeElement := Some el;
                                                   isVisible := true;
                                                   position := Some pos |} who).
    split; [done|]. rewrite Hm. cbn [state]. rewrite latest_notifyAll; [done|].
    by apply Hheard.
  - rewrite showToolbar_in_eq. cbn zeta. rewrite Hpos. cbn [fst].
    apply (mirror_silent _ _ _ _ []); cbn; by rewrite ?app_nil_r.
Qed.

Lemma mirror_hideToolbar (sub : nat → World → completion unit) (c : nat) (w : World) :
  heard sub c (subscribers (manager w)) →
  mirror_step sub c w (InHost.hideToolbar sub w).1.
Proof.
  intros Hc.
  destruct (hideToolbar_in_spec sub w)
    as (Hm & _ & _ & _ & _ & who & _ & Ht & _ & _ & _ & Hheard).
  split; [by rewrite Hm|]. exists (notifyAll initialState who).
  split; [done|]. rewrite Hm. cbn [state]. rewrite latest_notifyAll; [done|].
  by apply Hheard.
Qed.

Lemma mirror_fireTimer (sub : nat → World → completion unit) (c : nat) (t : Timer)
    (w : World) :
  heard sub c (subscribers (manager w)) →
  mirror_step sub c w (InHost.fireTimer sub t w).1.
Proof.
  intros Hc.
  destruct (fireTimer_in_frame sub t w)
    as (Hm & _ & _ & _ & _ & who & _ & Ht & _ & Hheard).
  split; [by rewrite Hm|]. eexists. split; [exact Ht|].
  rewrite Hm. cbn [state]. rewrite latest_app, latest_notifyAll; [done|].
  by apply Hheard.
Qed.

Lemma mirror_elapse (sub : nat → World → completion unit) (c : nat) (n : nat)
    (w : World) :
  heard sub c (subscribers (manager w)) →
  mirror_step sub c w (InHost.elapse sub n w).
Proof.
  intros Hc. apply (elapse_in_keeps sub (mirror_step sub c w)); [| |by apply mirror_refl].
  - intros t w' Hw'. eapply mirror_trans; [exact Hw'|].
    apply mirror_fireTimer, Hw'.
  - intros k w' Hw'. eapply mirror_trans; [exact Hw'|].
    apply (mirror_silent _ _ _ _ []); cbn; rewrite ?app_nil_r; try done. apply Hw'.
Qed.

Lemma exec_in_mirror (sub handler : nat → World → completion unit) (c : nat)
    (call : InHost.Call) (w : World) :
  heard sub c (subscribers (manager w)) →
  call ≠ InHost.CallUnsubscribe (UnsubscribeOf c) →
  mirror_step sub c w (InHost.exec sub handler call w).
Proof.
  intros Hc Hcall.
  destruct call as [el gp| |delay| |f oc onFocus|c'|[c']| |n|el e]; cbn [InHost.exec].
  - by apply mirror_showToolbar.
  - by apply mirror_hideToolbar.
  - rewrite scheduleHide_eq.
    apply (mirror_silent _ _ _ _ []); cbn; by rewrite ?app_nil_r.
  - unfold cancelScheduledHide. rewrite clearHideTimeout_eq.
    apply (mirror_silent _ _ _ _ []); cbn; by rewrite ?app_nil_r.
  - rewrite applyFormat_in_eq.
    destruct (activeElement (state (manager w))) as [el|] eqn:Hel.
    + destruct (applyFormattingOnSelection _ _) as [v|err]; cbn [fst];
        [|by apply mirror_refl].
      cbn zeta. destruct (handlerOutcome _ _ _); cbn [fst].
      * assert (mirror_step sub c w (formatted w el v oc)) as Hfmt.
        { eapply mirror_silent; cbn [formatted manager trace with_trace changed];
            [done..|].
          unfold formatEffects, changeEffects. destruct (js_or oc _); repeat constructor. }
        destruct onFocus as [gp|]; [|done].
        eapply mirror_trans; [exact Hfmt|]. by apply mirror_showToolbar.
      * eapply mirror_silent; cbn [changed manager trace]; [done..|].
        unfold changeEffects. destruct (js_or oc _); repeat constructor.
    + eapply mirror_silent; cbn; [done..|]. repeat constructor.
  - apply (mirror_silent _ _ _ _ []); cbn; rewrite ?app_nil_r; try done.
    by apply heard_Set_add.
  - apply (mirror_silent _ _ _ _ []); cbn; rewrite ?app_nil_r; try done.
    apply heard_Set_delete; [|done]. intros ->. done.
  - by apply mirror_refl.
  - by apply mirror_elapse.
  - apply (mirror_silent _ _ _ _ []); cbn; by rewrite ?app_nil_r.
Qed.

(** X3. A subscriber before which only subscribers that always return come
    is called at every change of the state.  As long as it stays subscribed,
    it stays so placed, and the last snapshot it was handed is the state of
    the manager; when it was handed none, the state has not changed. *)
Theorem subscriber_mirrors_state (sub handler : nat → World → completion unit)
    (w : World) (c : nat) (calls : list InHost.Call) :
  heard sub c (subscribers (manager w)) →
  Forall (λ call, call ≠ InHost.CallUnsubscribe (UnsubscribeOf c)) calls →
  heard sub c (subscribers (manager (InHost.run sub handler calls w)))
  ∧ ∃ suffix, trace (InHost.run sub handler calls w) = trace w ++ suffix
              ∧ state (manager (InHost.run sub handler calls w))
                = latest c (state (manager w)) suffix.
Proof.
  intros Hc Hcalls. change (mirror_step sub c w (InHost.run sub handler calls w)).
  revert w Hc. induction Hcalls as [|call calls Hcall _ IH]; intros w Hc.
  - by apply mirror_refl.
  - change (InHost.run sub handler (call :: calls) w)
      with (InHost.run sub handler calls (InHost.exec sub handler call w)).
    pose proof (exec_in_mirror sub handler c call w Hc Hcall) as Hstep.
    eapply mirror_trans; [exact Hstep|]. apply IH, Hstep.
Qed.

Lemma subscriber_mirrors_state_witness :
  let w := InHost.run throwing3 throwing7
             [InHost.Subscribe 4%nat; InHost.Subscribe 3%nat;
              InHost.Subscribe 5%nat] (initialWorld page) in
  let calls := [InHost.ShowToolbar 1%nat None; InHost.ScheduleHide 500;
                InHost.ApplyFormat uppercaseFormatter None None; InHost.Elapse 500;
                InHost.ShowToolbar 2%nat None] in
  ∃ suffix, trace (InHost.run throwing3 throwing7 calls w) = trace w ++ suffix
            ∧ state (manager (InHost.run throwing3 throwing7 calls w))
              = latest 3%nat initialState suffix
            ∧ callsTo 3%nat suffix
              = [ {| activeElement := Some 1%nat; isVisible := true;
                     position := Some {| x := 10; y := 25 |} |};
                  initialState;
                  {| activeElement := Some 2%nat; isVisible := true;
                     position := Some {| x := 10; y := 65 |} |} ]
            ∧ callsTo 5%nat suffix = [].
Proof.
  cbn zeta.
  set (w := InHost.run throwing3 throwing7
              [InHost.Subscribe 4%nat; InHost.Subscribe 3%nat;
               InHost.Subscribe 5%nat] (initialWorld page)).
  set (calls := [InHost.ShowToolbar 1%nat None; InHost.ScheduleHide 500;
                 InHost.ApplyFormat uppercaseFormatter None None; InHost.Elapse 500;
                 InHost.ShowToolbar 2%nat None]).
  destruct (subscriber_mirrors_state throwing3 throwing7 w 3%nat calls)
    as (_ & suffix & Ht & Hs).
  - exists [4%nat], [5%nat]. split; [reflexivity | by repeat constructor].
  - repeat constructor; discriminate.
  - exists suffix. split_and!; [exact Ht | exact Hs | |].
    + assert (suffix = drop (List.length (trace w))
                         (trace (InHost.run throwing3 throwing7 calls w))) as ->
        by (by rewrite Ht, drop_app_length).
      vm_compute. reflexivity.
    + assert (suffix = drop (List.length (trace w))
                         (trace (InHost.run throwing3 throwing7 calls w))) as ->
        by (by rewrite Ht, drop_app_length).
      vm_compute. reflexivity.
Defined.

(** ** applyFormat when the formatter throws *)

Lemma applyFormattingOnSelection_throws (element : Element)
    (formatter : FormatterFunction) (err : string) :
  applyFormattingOnSelection element formatter = Throw err
  ↔ formatter (formatterInput element) = Throw err.
Proof.
  unfold applyFormattingOnSelection, formatterInput. cbn zeta.
  destruct (_ <? _); [|done].
  destruct (formatter _); split; congruence.
Qed.

Lemma changed_not_same (w : World) (el : nat) (v : string) (chosen : option nat) :
  changed w el v chosen ≠ w.
Proof.
  intros H. apply (f_equal (λ w', List.length (trace w'))) in H.
  cbn [changed trace] in H. rewrite length_app in H.
  unfold changeEffects in H. rewrite length_app in H. cbn in H. lia.
Qed.

(** X6. With an active element, [applyFormat] throws and leaves the world
    exactly as it was (no value written, no event, no handler called, no
    focus) exactly when the formatter throws on the one text it is given: the
    selection, or the whole value when there is none. *)
Theorem applyFormat_throwing_formatter (sub handler : nat → World → completion unit)
    (w : World) (formatter : FormatterFunction) (onChange : option nat)
    (onFocus : option PositionFn) (el : nat) (err : string) :
  activeElement (state (manager w)) = Some el →
  (InHost.applyFormat sub handler formatter onChange onFocus w = (w, Throw err)
   ↔ formatter (formatterInput (dom w !!! el)) = Throw err)
  ∧ (formatter (formatterInput (dom w !!! el)) = Throw err →
     applyFormat formatter onChange w = (w, Throw err)).
Proof.
  intros Hel. rewrite applyFormat_in_eq, applyFormat_eq, Hel. cbn zeta.
  rewrite <- applyFormattingOnSelection_throws.
  destruct (applyFormattingOnSelection (dom w !!! el) formatter) as [v|err'].
  - split; [|done]. split; [|done].
    destruct (handlerOutcome _ _ _); [done|].
    intros [= H _]. by apply changed_not_same in H.
  - split; [split|]; congruence.
Qed.

Lemma applyFormat_throwing_formatter_witness :
  let w := InHost.exec returning throwing7 (InHost.ShowToolbar 1%nat None)
             (initialWorld page) in
  let formatter := λ text, if String.eqb text "hello"
                           then Throw "bad formatter"%string else Normal text in
  InHost.applyFormat returning throwing7 formatter (Some 9%nat)
    (Some UseFormattingToolbar.defaultGetPosition) w
  = (w, Throw "bad formatter"%string).
Proof.
  cbn zeta.
  set (w := InHost.exec returning throwing7 (InHost.ShowToolbar 1%nat None)
              (initialWorld page)).
  destruct (applyFormat_throwing_formatter returning throwing7 w
              (λ text, if String.eqb text "hello"
                       then Throw "bad formatter"%string else Normal text)
              (Some 9%nat) (Some UseFormattingToolbar.defaultGetPosition) 1%nat
              "bad formatter"%string eq_refl) as [H _].
  apply H. reflexivity.
Defined.

(** ** The hook's blur and the toolbar's mouse-down *)

(** X12. With [preventCloseOnClick] left on, the props of the toolbar carry
    a mouse-down handler; when it runs after a blur, before the delay of the
    config (500 ms when it has none; a delay from 1 to 2^31 - 1) has passed,
    the default of the event is prevented and the hide is cancelled: the
    state stays as it was and nothing is called, however long one waits.
    With [preventCloseOnClick] false there is no handler. *)
Theorem mouse_down_cancels_blur (sub handler : nat → World → completion unit)
    (w : World) (config : ToolbarConfig) (toolbarState : ToolbarState)
    (e : MouseEvent) (m : nat) :
  InHost.Reachable sub handler w →
  1 ≤ nullish (hideDelay config) 500%Z ≤ 2147483647 →
  (m < Z.to_nat (nullish (hideDelay config) 500%Z))%nat →
  let toolbarProps := UseFormattingToolbar.getToolbarProps config toolbarState in
  let blurred := InHost.elapse sub m (UseFormattingToolbar.handleBlur config w).1 in
  (preventCloseOnClick config = Some false →
   UseFormattingToolbar.onMouseDown toolbarProps = None)
  ∧ (preventCloseOnClick config ≠ Some false →
     ∃ mouseDown,
       UseFormattingToolbar.onMouseDown toolbarProps = Some mouseDown
       ∧ (mouseDown e blurred).2 = Normal {| defaultPrevented := true |}
       ∧ ∀ n, let w' := InHost.elapse sub n (mouseDown e blurred).1 in
              state (manager w') = state (manager w)
              ∧ trace w' = trace w
              ∧ timers w' = []).
Proof.
  intros Hw%Reachable_in_single_slot Hd Hm. cbn zeta.
  rewrite <- (timerDelay_in_range _ Hd) in Hm. split.
  - intros Hp. unfold UseFormattingToolbar.getToolbarProps. by rewrite Hp.
  - intros Hp. unfold UseFormattingToolbar.getToolbarProps.
    assert (nullish (preventCloseOnClick config) true = true) as ->
      by (by destruct (preventCloseOnClick config) as [[]|]).
    eexists. split; [reflexivity|].
    unfold UseFormattingToolbar.handleBlur. cbn zeta.
    rewrite (scheduleHide_single _ w Hw).
    rewrite (elapse_in_early sub m
               {| timerId := nextTimer w;
                  due := (clock w + timerDelay (nullish (hideDelay config) 500%Z))%nat |});
      [|reflexivity|cbn; lia].
    cbv [mbind M_bind mret M_ret]. unfold cancelScheduledHide.
    rewrite clearHideTimeout_eq. cbn [fst snd]. split; [done|].
    intros n. rewrite elapse_in_idle by (cbn; apply filter_own_timer).
    cbn. split_and!; [done..|]. apply filter_own_timer.
Qed.

Lemma mouse_down_cancels_blur_witness :
  let w := InHost.exec throwing3 throwing7 (InHost.ShowToolbar 1%nat None)
             (initialWorld page) in
  let blurred := InHost.elapse throwing3 499
                   (UseFormattingToolbar.handleBlur emptyConfig w).1 in
  ∃ mouseDown,
    UseFormattingToolbar.onMouseDown
      (UseFormattingToolbar.getToolbarProps emptyConfig (state (manager w)))
    = Some mouseDown
    ∧ isVisible (state (manager (InHost.elapse throwing3 5000
                                   (mouseDown {| defaultPrevented := false |}
                                      blurred).1))) = true.
Proof.
  cbn zeta.
  set (w := InHost.exec throwing3 throwing7 (InHost.ShowToolbar 1%nat None)
              (initialWorld page)).
  assert (InHost.Reachable throwing3 throwing7 w) as Hr
    by (by exists page, [InHost.ShowToolbar 1%nat None]).
  destruct (mouse_down_cancels_blur throwing3 throwing7 w emptyConfig (state (manager w))
              {| defaultPrevented := false |} 499 Hr) as [_ H];
    [vm_compute; split; discriminate | vm_compute; lia |].
  destruct H as (mouseDown & Hh & _ & Hn); [done|].
  exists mouseDown. split; [exact Hh|].
  destruct (Hn 5000%nat) as (-> & _). reflexivity.
Defined.



(** * The first part as an instance *)

(** With callbacks that return and a [focus()] that runs no listener, the
    manager in its host is the manager of the first part. *)

Lemma called_returning (w : World) (subs : list nat) :
  called returning w subs = subs ∧ outcome returning w subs = Normal tt.
Proof. apply called_all_return. by apply Forall_forall. Qed.

Lemma hideToolbar_returning (w : World) :
  InHost.hideToolbar returning w = hideToolbar w.
Proof.
  rewrite hideToolbar_in_eq, hideToolbar_eq.
  by destruct (called_returning (hidden w) (subscribers (manager w))) as [-> ->].
Qed.

Lemma showToolbar_returning (element : nat) (getPosition : option PositionFn)
    (w : World) :
  InHost.showToolbar returning element getPosition w = showToolbar element getPosition w.
Proof.
  rewrite showToolbar_in_eq, showToolbar_eq. cbn zeta.
  destruct (nullish getPosition defaultGetPosition _) as [pos|err]; [|done].
  by destruct (called_returning (shown w element pos) (subscribers (manager w)))
    as [-> ->].
Qed.

Lemma applyFormat_returning (formatter : FormatterFunction) (onChange : option nat)
    (w : World) :
  InHost.applyFormat returning returning formatter onChange None w
  = applyFormat formatter onChange w.
Proof.
  rewrite applyFormat_in_eq, applyFormat_eq.
  destruct (activeElement _) as [el|]; [|done]. cbn zeta.
  destruct (applyFormattingOnSelection _ _) as [v|err]; [|done].
  unfold formatted, changed, formatEffects, changeEffects, handlerOutcome.
  destruct (js_or onChange _); cbn; by rewrite <- ?app_assoc.
Qed.

Lemma fireTimer_returning (t : Timer) (w : World) :
  (InHost.fireTimer returning t w).1 = (fireTimer t w).1.
Proof.
  rewrite fireTimer_in_eq, fireTimer_eq. cbn zeta.
  match goal with
  | |- context [called returning ?w0 ?l] =>
      by destruct (called_returning w0 l) as [-> _]
  end.
Qed.

Lemma runDueTimers_returning (fuel : nat) (w : World) :
  InHost.runDueTimers returning fuel w = runDueTimers fuel w.
Proof.
  revert w. induction fuel as [|fuel IH]; intros w; [done|].
  cbn [InHost.runDueTimers runDueTimers].
  destruct (List.find _ _) as [t|]; [|done]. by rewrite fireTimer_returning, IH.
Qed.

Lemma elapse_returning (n : nat) (w : World) :
  InHost.elapse returning n w = elapse n w.
Proof.
  revert w. induction n as [|n IH]; intros w; cbn [InHost.elapse elapse];
    unfold InHost.runTimers, runTimers; rewrite runDueTimers_returning; [done|].
  apply IH.
Qed.

Lemma exec_returning (op : Op) (w : World) :
  InHost.exec returning returning (inHost op) w = exec op w.
Proof.
  destruct op; cbn [inHost InHost.exec exec];
    rewrite ?showToolbar_returning, ?hideToolbar_returning, ?applyFormat_returning,
      ?elapse_returning; reflexivity.
Qed.

Lemma run_returning (ops : list Op) (w : World) :
  InHost.run returning returning (map inHost ops) w = run ops w.
Proof.
  revert w. induction ops as [|op ops IH]; intros w; [done|].
  change (InHost.run returning returning (map inHost ops)
            (InHost.exec returning returning (inHost op) w)
          = run ops (exec op w)).
  by rewrite exec_returning, IH.
Qed.

Lemma Reachable_returning (w : World) :
  Reachable w → InHost.Reachable returning returning w.
Proof.
  intros (d & ops & ->). exists d, (map inHost ops). by rewrite run_returning.
Qed.
